(** * Gozod: a shallow embedding of the validation engine

    The development follows the Go sources:
    - the error model ([src/unnamed/part_008]): paths, [ValidationError],
      [ValidationErrors], [PathToString], [PathEqual], [GetErrorsByPath],
      [Flatten];
    - [schema.go]: [BaseSchema], message resolution, refinements, and the
      methods every schema repeats on it ([Nilable], [Refine], [SuperRefine],
      [CustomError], [SetErrorFormatter]);
    - [string.go], the integer schema ([src/unnamed/part_010]), [float.go],
      [bool.go]: the scalar schemas;
    - [array.go], [map.go], [struct.go]: the composite schemas.

    Go values of type [any] are a tagged union ([value]); a [*ValidationErrors]
    result is an [option]; the one run-time panic the engine can raise by
    itself (an integer remainder by zero) is kept as an outcome of its own.
    Integers are [Z] with the wrap-around of int64 written out, floats are
    binary64 ([PrimFloat]); the platform is a 64-bit one (amd64).  The text
    Go's [fmt] prints for a float64 under [%v] is a parameter of the model;
    everything else is computed. *)

From Stdlib Require Import ZArith Floats Ascii String List DecimalString.
From stdpp Require Import gmap strings list.

Set Warnings "-inexact-float,-register-all".
#[local] Open Scope Z_scope.

(* ================================================================== *)
(** ** Text: the pieces of Go's [strings], [fmt] and [unicode/utf8] used *)
(* ================================================================== *)

Module Text.

(** [fmt.Sprintf("%d", n)] and [%v] of an integer: decimal, with a sign. *)
Definition fmtInt (n : Z) : string := NilZero.string_of_int (Z.to_int n).

(** [len(s)], as a Go [int]. *)
Definition len (s : string) : Z := Z.of_nat (String.length s).

(** [strings.HasPrefix(s, prefix)]. *)
Fixpoint HasPrefix (s prefix : string) {struct prefix} : bool :=
  match prefix, s with
  | EmptyString, _ => true
  | String a prefix', String b s' => Ascii.eqb a b && HasPrefix s' prefix'
  | String _ _, EmptyString => false
  end.

(** [strings.Index(s, substr)]: byte offset of the first occurrence. *)
Definition Index (s substr : string) : option nat := String.index 0 substr s.

(** [strings.Contains(s, substr)]. *)
Definition Contains (s substr : string) : bool :=
  match Index s substr with Some _ => true | None => false end.

(** [strings.HasSuffix(s, suffix)]. *)
Definition HasSuffix (s suffix : string) : bool :=
  let n := String.length s in
  let k := String.length suffix in
  (k <=? n)%nat && String.eqb (String.substring (n - k) k s) suffix.

(** [strings.Join(elems, sep)]. *)
Definition Join (elems : list string) (sep : string) : string :=
  String.concat sep elems.

(** [s[:n]] on bytes. *)
Definition take (n : nat) (s : string) : string := String.substring 0 n s.

Definition code (a : ascii) : N := N_of_ascii a.
Definition between (lo hi : N) (a : ascii) : bool :=
  ((lo <=? code a) && (code a <=? hi))%N.

Definition isDigit (a : ascii) : bool := between 48 57 a.
Definition isUpper (a : ascii) : bool := between 65 90 a.
Definition isLower (a : ascii) : bool := between 97 122 a.
Definition isLetter (a : ascii) : bool := isUpper a || isLower a.
Definition isAscii (a : ascii) : bool := (code a <? 128)%N.

(** [strings.ToLower] on a one-byte string: an ASCII capital is lowered, any
    other ASCII byte is kept, and a lone byte above 0x7F, which is not valid
    UTF-8, comes back as the replacement character U+FFFD (EF BF BD). *)
Definition ToLower1 (a : ascii) : string :=
  if isUpper a then String (ascii_of_N (code a + 32)) EmptyString
  else if isAscii a then String a EmptyString
  else String (ascii_of_N 239) (String (ascii_of_N 191)
         (String (ascii_of_N 189) EmptyString)).

(** *** Runes

    Go's [regexp] reads its input rune by rune.  The patterns of this
    repository only tell ASCII characters apart, so a rune is either an
    ASCII character or "something above U+007F". *)
Inductive rune :=
| Chr (a : ascii)
| NonAscii.

Definition cont (a : ascii) : bool := between 128 191 a.

(** Width in bytes of the UTF-8 sequence led by [b] and followed by [rest],
    as [utf8.DecodeRuneInString] accepts it; an invalid sequence has width
    one (the decoder returns [RuneError] and advances one byte). *)
Definition width (b : ascii) (rest : list ascii) : nat :=
  let c := code b in
  match rest with
  | b1 :: rest1 =>
      if ((194 <=? c) && (c <=? 223))%N then (if cont b1 then 2 else 1)%nat
      else
        let second :=
          if (c =? 224)%N then between 160 191 b1
          else if (c =? 237)%N then between 128 159 b1
          else if (c =? 240)%N then between 144 191 b1
          else if (c =? 244)%N then between 128 143 b1
          else cont b1 in
        match rest1 with
        | b2 :: rest2 =>
            if ((224 <=? c) && (c <=? 239))%N
            then (if second && cont b2 then 3 else 1)%nat
            else if ((240 <=? c) && (c <=? 244))%N
            then match rest2 with
                 | b3 :: _ => (if second && cont b2 && cont b3 then 4 else 1)%nat
                 | [] => 1%nat
                 end
            else 1%nat
        | [] => 1%nat
        end
  | [] => 1%nat
  end.

(** [skip] counts the bytes of the current sequence still to be passed. *)
Fixpoint runesFrom (skip : nat) (bytes : list ascii) : list rune :=
  match bytes with
  | [] => []
  | b :: rest =>
      match skip with
      | S k => runesFrom k rest
      | O => if isAscii b then Chr b :: runesFrom 0 rest
             else NonAscii :: runesFrom (width b rest - 1) rest
      end
  end.

Definition runes (s : string) : list rune :=
  runesFrom 0 (list_ascii_of_string s).

End Text.

(* ================================================================== *)
(** ** Regular expressions: the three fixed patterns of the package *)
(* ================================================================== *)

Module Regex.

Section Matcher.
Context {sym : Type}.

Inductive re :=
| Void
| Eps
| Cls (p : sym -> bool)
| Cat (r1 r2 : re)
| Alt (r1 r2 : re)
| Star (r : re).

Fixpoint nullable (r : re) : bool :=
  match r with
  | Void => false
  | Eps => true
  | Cls _ => false
  | Cat r1 r2 => nullable r1 && nullable r2
  | Alt r1 r2 => nullable r1 || nullable r2
  | Star _ => true
  end.

(** Brzozowski derivative of [r] by the symbol [c]. *)
Fixpoint deriv (c : sym) (r : re) : re :=
  match r with
  | Void => Void
  | Eps => Void
  | Cls p => if p c then Eps else Void
  | Cat r1 r2 =>
      if nullable r1 then Alt (Cat (deriv c r1) r2) (deriv c r2)
      else Cat (deriv c r1) r2
  | Alt r1 r2 => Alt (deriv c r1) (deriv c r2)
  | Star r1 => Cat (deriv c r1) (Star r1)
  end.

(** The whole input matches: a pattern written [^...$]. *)
Fixpoint fullMatch (r : re) (input : list sym) : bool :=
  match input with
  | [] => nullable r
  | c :: rest => fullMatch (deriv c r) rest
  end.

(** Some prefix of the input matches. *)
Fixpoint prefixMatch (r : re) (input : list sym) : bool :=
  nullable r ||
  match input with
  | [] => false
  | c :: rest => prefixMatch (deriv c r) rest
  end.

(** Offset of the leftmost match of an unanchored pattern. *)
Fixpoint search (r : re) (input : list sym) : option nat :=
  if prefixMatch r input then Some O
  else match input with
       | [] => None
       | _ :: rest => S <$> search r rest
       end.

Definition plus (r : re) : re := Cat r (Star r).
Definition opt (r : re) : re := Alt r Eps.

End Matcher.
Arguments re : clear implicits.

Import Text.

Definition chr (a : ascii) : re rune :=
  Cls (fun r => match r with Chr b => Ascii.eqb a b | NonAscii => false end).

Fixpoint lit (s : string) : re rune :=
  match s with
  | EmptyString => Eps
  | String a rest => Cat (chr a) (lit rest)
  end.

Definition inClass (p : ascii -> bool) : re rune :=
  Cls (fun r => match r with Chr b => p b | NonAscii => false end).

(** A negated class matches every rune outside the listed ones. *)
Definition notInClass (p : ascii -> bool) : re rune :=
  Cls (fun r => match r with Chr b => negb (p b) | NonAscii => true end).

Definition oneOf (set : string) (a : ascii) : bool :=
  existsb (Ascii.eqb a) (list_ascii_of_string set).

(** [\s] of RE2: tab, newline, form feed, carriage return, space. *)
Definition isSpace (a : ascii) : bool :=
  existsb (N.eqb (code a)) [9; 10; 12; 13; 32]%N.

(** [^[a-zA-Z0-9._%+\-]+@[a-zA-Z0-9.\-]+\.[a-zA-Z]{2,}$] *)
Definition emailRegex : re rune :=
  Cat (plus (inClass (fun a => isLetter a || isDigit a || oneOf "._%+-" a)))
  (Cat (chr "@")
  (Cat (plus (inClass (fun a => isLetter a || isDigit a || oneOf ".-" a)))
  (Cat (chr ".")
  (Cat (inClass isLetter) (plus (inClass isLetter)))))).

(** [^https?://[^\s/$.?#].[^\s]*$]; the dot is any rune but a newline. *)
Definition urlRegex : re rune :=
  Cat (lit "http")
  (Cat (opt (chr "s"))
  (Cat (lit "://")
  (Cat (notInClass (fun a => isSpace a || oneOf "/$.?#" a))
  (Cat (notInClass (fun a => (code a =? 10)%N))
       (Star (notInClass isSpace)))))).

(** [regexp.MatchString] for the two anchored patterns. *)
Definition MatchString (r : re rune) (s : string) : bool :=
  fullMatch r (runes s).

(** [\[(\d+)\]]: every symbol of the pattern is ASCII, so it is searched
    byte by byte and the offsets are byte offsets. *)
Definition arrayIndexRegex : re ascii :=
  Cat (Cls (Ascii.eqb "["))
  (Cat (plus (Cls isDigit)) (Cls (Ascii.eqb "]"))).

Definition FindIndex (r : re ascii) (s : string) : option nat :=
  search r (list_ascii_of_string s).

End Regex.


(* ================================================================== *)
(** ** Numbers: Go's int64 and float64 *)
(* ================================================================== *)

Module Num.

Definition minInt64 : Z := - 2 ^ 63.
Definition maxInt64 : Z := 2 ^ 63 - 1.

(** Conversion of an integer to int64: two's complement wrap-around.  It is
    the identity on every signed kind and on unsigned values up to
    [maxInt64]; a [uint] above that comes out negative. *)
Definition wrap64 (n : Z) : Z := (n + 2 ^ 63) mod 2 ^ 64 - 2 ^ 63.

(** [int64(f)] for a float64 [f]: truncation toward zero.  Outside the
    range of int64 (and for NaN and the infinities) Go leaves the result to
    the implementation; the model takes amd64's answer, [minInt64]. *)
Definition toInt64 (f : float) : Z :=
  match Prim2SF f with
  | S754_zero _ => 0
  | S754_finite sign m e =>
      let magnitude := Z.shiftl (Z.pos m) e in
      let n := if sign then - magnitude else magnitude in
      if (minInt64 <=? n) && (n <=? maxInt64) then n else minInt64
  | S754_infinity _ | S754_nan => minInt64
  end.

(** [float64(n)] for an int64 [n]: the nearest float64. *)
Definition ofInt64 (n : Z) : float :=
  SF2Prim (binary_normalize prec emax n 0 false).

(** The test of [FloatSchema.Validate] under "MultipleOf validation":
    [remainder-float64(int64(remainder)) > 0.0001 && ... < 0.9999]. *)
Definition notMultiple (num multipleOf : float) : bool :=
  let remainder := (num / multipleOf)%float in
  let frac := (remainder - ofInt64 (toInt64 remainder))%float in
  PrimFloat.ltb 0.0001%float frac && PrimFloat.ltb frac 0.9999%float.

(** [reflect.Value.IsZero] on a float, as of Go 1.22: [v.Float() == 0],
    which holds for both zeros and does not for NaN. *)
Definition isZero (f : float) : bool := PrimFloat.eqb f 0%float.

End Num.

(* ================================================================== *)
(** ** Values of type [any] *)
(* ================================================================== *)

Inductive intKind :=
| Int | Int8 | Int16 | Int32 | Int64
| Uint | Uint8 | Uint16 | Uint32 | Uint64.

Inductive floatKind := Float32 | Float64.

(** What [reflect.StructField] tells the struct schema about a member:
    its Go name, its package path (empty iff the member is exported), the
    value of the [json] key of its tag, and whether its declared type is a
    pointer type. *)
Record StructField := {
  Name : string;
  PkgPath : string;
  JsonTag : string;
  IsPtr : bool
}.

(** A dynamic Go value.  [ty] is the text [%T] prints for it.  A map holds
    its entries, each with the text [%v] prints for its key, which is how
    [MapSchema.Validate] reads them (two keys of a map may print alike); the
    order of the entries stands for the order in which the run time happens
    to give the keys of the map.  [isZero] is
    [reflect.Value.IsZero] where the engine asks for it without looking
    inside.  [VOpaque] is any other non-nil value: a named scalar type, a
    function, a channel, a complex number. *)
Inductive value :=
| VNil
| VBool (b : bool)
| VInt (k : intKind) (n : Z)
| VFloat (k : floatKind) (f : float)
| VString (s : string)
| VSlice (ty : string) (elems : list value)
| VArray (ty : string) (isZero : bool) (elems : list value)
| VMap (ty : string) (entries : list (string * value))
| VStruct (ty : string) (isZero : bool) (fields : list (StructField * value))
| VPtr (ty : string) (target : option value)
| VOpaque (ty : string) (isZero : bool).

Definition intKindName (k : intKind) : string :=
  match k with
  | Int => "int" | Int8 => "int8" | Int16 => "int16" | Int32 => "int32"
  | Int64 => "int64" | Uint => "uint" | Uint8 => "uint8"
  | Uint16 => "uint16" | Uint32 => "uint32" | Uint64 => "uint64"
  end.

(** [fmt.Sprintf("%T", v)]. *)
Definition typeName (v : value) : string :=
  match v with
  | VNil => "<nil>"
  | VBool _ => "bool"
  | VInt k _ => intKindName k
  | VFloat Float32 _ => "float32"
  | VFloat Float64 _ => "float64"
  | VString _ => "string"
  | VSlice ty _ | VArray ty _ _ | VMap ty _ | VStruct ty _ _
  | VPtr ty _ | VOpaque ty _ => ty
  end.

(** The primitive kinds the scalar schemas tell apart. *)
Inductive primKind := KString | KInteger | KFloat | KBool | KOther.

Definition kindOf (v : value) : primKind :=
  match v with
  | VString _ => KString
  | VInt _ _ => KInteger
  | VFloat _ _ => KFloat
  | VBool _ => KBool
  | _ => KOther
  end.

(* ================================================================== *)
(** ** The error model: paths and failures *)
(* ================================================================== *)

(** An element of a path of type [[]any].  [PathToString] tells four cases
    apart: a string, an int, an int64, and anything else, for which the
    model keeps the text [%v] prints. *)
Inductive pathPart :=
| PStr (s : string)
| PInt (n : Z)
| PInt64 (n : Z)
| POther (text : string).

Definition path := list pathPart.

Definition ErrCodeRequired : string := "required".
Definition ErrCodeInvalidType : string := "invalid_type".
Definition ErrCodeTooSmall : string := "too_small".
Definition ErrCodeTooBig : string := "too_big".
Definition ErrCodeInvalidString : string := "invalid_string".
Definition ErrCodeInvalidEnumValue : string := "invalid_enum_value".
Definition ErrCodeUnrecognizedKeys : string := "unrecognized_keys".
Definition ErrCodeCustomValidation : string := "custom_validation".

Definition meta := list (string * value).

Record ValidationError := {
  Path : path;
  Message : string;
  Code : string;
  Meta : option meta
}.

Record ValidationErrors := { Errors : list ValidationError }.

(** [PathAppend]: a fresh slice, the argument is left alone. *)
Definition PathAppend (p : path) (part : pathPart) : path := p ++ [part].

Definition AddWithMeta (e : ValidationErrors) (p : path) (code message : string)
    (m : option meta) : ValidationErrors :=
  {| Errors := Errors e ++
       [ {| Path := p; Message := message; Code := code; Meta := m |} ] |}.

Definition Add (e : ValidationErrors) (p : path) (code message : string)
    : ValidationErrors :=
  AddWithMeta e p code message None.

(** The loop of [PathToString] that renders each part. *)
Definition renderPart (part : pathPart) : string :=
  match part with
  | PStr s => s
  | PInt n => "[" +:+ Text.fmtInt n +:+ "]"
  | PInt64 n => "[" +:+ Text.fmtInt n +:+ "]"
  | POther text => "[" +:+ text +:+ "]"
  end.

(** The loop of [PathToString] that joins the parts. *)
Fixpoint joinParts (result : string) (parts : list string) : string :=
  match parts with
  | [] => result
  | part :: rest =>
      if Text.HasPrefix part "["
      then joinParts (result +:+ part) rest
      else joinParts (result +:+ "." +:+ part) rest
  end.

Definition PathToString (p : path) : string :=
  match map renderPart p with
  | [] => ""
  | first :: rest => joinParts first rest
  end.

Record FlattenErrorResult := {
  FormErrors : list string;
  FieldErrors : gmap string (list string)
}.

(** [result.FieldErrors[key] = append(result.FieldErrors[key], msg)]. *)
Definition appendField (key msg : string) (r : FlattenErrorResult)
    : FlattenErrorResult :=
  {| FormErrors := FormErrors r;
     FieldErrors := <[ key := default [] (FieldErrors r !! key) ++ [msg] ]>
                      (FieldErrors r) |}.

(** One turn of the loop of [Flatten]. *)
Definition flattenStep (r : FlattenErrorResult) (err : ValidationError)
    : FlattenErrorResult :=
  let pathStr := PathToString (Path err) in
  if String.eqb pathStr ""
  then {| FormErrors := FormErrors r ++ [Message err];
          FieldErrors := FieldErrors r |}
  else match Regex.FindIndex Regex.arrayIndexRegex pathStr with
       | Some start => appendField (Text.take start pathStr) (Message err) r
       | None => appendField pathStr (Message err) r
       end.

Definition Flatten (e : ValidationErrors) : FlattenErrorResult :=
  fold_left flattenStep (Errors e) {| FormErrors := []; FieldErrors := ∅ |}.

(** [path1[i] != path2[i]], negated: two [any] are equal when their dynamic
    types and their values are.  A string, an int and an int64 are compared
    as such; a part of another type differs from all of these, and against
    another such part the comparison (which Go may even refuse at run time)
    is not settled by the text the model keeps: [None]. *)
Definition partEqual (part1 part2 : pathPart) : option bool :=
  match part1, part2 with
  | PStr s1, PStr s2 => Some (String.eqb s1 s2)
  | PInt n1, PInt n2 => Some (n1 =? n2)
  | PInt64 n1, PInt64 n2 => Some (n1 =? n2)
  | POther _, POther _ => None
  | _, _ => Some false
  end.

(** The loop of [PathEqual], which stops at the first difference. *)
Fixpoint partsEqual (path1 path2 : path) : option bool :=
  match path1, path2 with
  | part1 :: rest1, part2 :: rest2 =>
      match partEqual part1 part2 with
      | Some true => partsEqual rest1 rest2
      | other => other
      end
  | _, _ => Some true
  end.

Definition PathEqual (path1 path2 : path) : option bool :=
  if negb (length path1 =? length path2)%nat then Some false
  else partsEqual path1 path2.

(** [GetErrorsByPath]: the failures at [p], in the order of the collection. *)
Definition GetErrorsByPath (e : ValidationErrors) (p : path)
    : option (list ValidationError) :=
  fold_left
    (fun result err =>
       match result, PathEqual (Path err) p with
       | Some result, Some true => Some (result ++ [err])
       | Some result, Some false => Some result
       | _, _ => None
       end)
    (Errors e) (Some []).

(* ================================================================== *)
(** ** schema.go: the state every schema carries *)
(* ================================================================== *)

(** [RefineFunc]: [(valid, message)] for a value. *)
Definition RefineFunc := value -> bool * string.

(** [CustomErrorFunc]: [(path, code, defaultMessage)] to the message. *)
Definition CustomErrorFunc := path -> string -> string -> string.

(** One call of [ctx.AddIssue] or [ctx.AddIssueWithMeta]; [AddIssue] leaves
    the metadata nil. *)
Record Issue := {
  issuePath : path;
  issueCode : string;
  issueMessage : string;
  issueMeta : option meta
}.

(** [SuperRefineFunc].  The context a refinement receives only lets it add
    issues, so the function is modelled by the issues it adds, in order. *)
Definition SuperRefineFunc := value -> list Issue.

Record BaseSchema := {
  required : bool;
  nilable : bool;
  customErrors : gmap string string;
  errorFormatter : option CustomErrorFunc;
  refinements : list RefineFunc;
  superRefinements : list SuperRefineFunc
}.

(** What the constructors [String()], [Int()], ... start from. *)
Definition newBase : BaseSchema :=
  {| required := true; nilable := false; customErrors := ∅;
     errorFormatter := None; refinements := []; superRefinements := [] |}.

Definition getErrorMessage (b : BaseSchema) (p : path)
    (code defaultMessage : string) : string :=
  match errorFormatter b with
  | Some formatter => formatter p code defaultMessage
  | None =>
      match customErrors b !! code with
      | Some customMsg => customMsg
      | None => defaultMessage
      end
  end.

(** The body of the loop of [applyRefinements]. *)
Definition applyRefinement (b : BaseSchema) (v : value) (p : path)
    (errors : ValidationErrors) (refine : RefineFunc) : ValidationErrors :=
  let '(valid, message) := refine v in
  if valid then errors
  else
    let message :=
      if String.eqb message ""
      then getErrorMessage b p ErrCodeCustomValidation "Custom validation failed"
      else getErrorMessage b p ErrCodeCustomValidation message in
    Add errors p ErrCodeCustomValidation message.

Definition applyRefinements (b : BaseSchema) (v : value) (p : path)
    (errors : ValidationErrors) : ValidationErrors :=
  fold_left (applyRefinement b v p) (refinements b) errors.

(** [SuperRefineContext.AddIssue] and [AddIssueWithMeta]: the issue's path
    is appended, part by part, to the base path. *)
Definition AddIssue (basePath : path) (errors : ValidationErrors) (i : Issue)
    : ValidationErrors :=
  let fullPath := fold_left PathAppend (issuePath i) basePath in
  AddWithMeta errors fullPath (issueCode i) (issueMessage i) (issueMeta i).

Definition applySuperRefinements (b : BaseSchema) (v : value) (p : path)
    (errors : ValidationErrors) : ValidationErrors :=
  fold_left (fun errors superRefine => fold_left (AddIssue p) (superRefine v) errors)
            (superRefinements b) errors.

(** [errors := &ValidationErrors{}]. *)
Definition noErrors : ValidationErrors := {| Errors := [] |}.

(** The end of every [Validate]: nil when nothing was recorded. *)
Definition nilIfEmpty (errors : ValidationErrors) : option ValidationErrors :=
  match Errors errors with
  | [] => None
  | _ :: _ => Some errors
  end.

(** [errors.Add(path, code, s.getErrorMessage(path, code, text))]. *)
Definition report (b : BaseSchema) (errors : ValidationErrors) (p : path)
    (code text : string) : ValidationErrors :=
  Add errors p code (getErrorMessage b p code text).

(** [if cond { msg := ...; errors.Add(...) }]. *)
Definition reportIf (cond : bool) (b : BaseSchema) (errors : ValidationErrors)
    (p : path) (code text : string) : ValidationErrors :=
  if cond then report b errors p code text else errors.

(** "Handle nil/nilable", the same lines in every [Validate]. *)
Definition onNil (b : BaseSchema) (p : path) : option ValidationErrors :=
  if negb (nilable b)
  then Some (report b noErrors p ErrCodeRequired "Required")
  else None.

(** What a call of [Validate] does: it returns its [*ValidationErrors], or
    the goroutine panics. *)
Inductive outcome :=
| Return (errors : option ValidationErrors)
| Panic.

(* ================================================================== *)
(** ** string.go *)
(* ================================================================== *)

Module StringSchema.

(** [regex] is the compiled pattern, kept as its [MatchString]. *)
Record t := {
  base : BaseSchema;
  minLength : option Z;
  maxLength : option Z;
  email : bool;
  url : bool;
  regex : option (string -> bool);
  regexMessage : string;
  oneOf : list string;
  notOneOf : list string;
  startsWith : option string;
  endsWith : option string;
  includes : option string
}.

Definition String_ : t :=
  {| base := newBase; minLength := None; maxLength := None; email := false;
     url := false; regex := None; regexMessage := ""; oneOf := [];
     notOneOf := []; startsWith := None; endsWith := None; includes := None |}.

(** The built-in constraints, from "Length validations" down to "Includes
    validation". *)
Definition constraints (s : t) (str : string) (p : path)
    (errors : ValidationErrors) : ValidationErrors :=
  let b := base s in
  let errors :=
    match minLength s with
    | Some n =>
        reportIf (Text.len str <? n) b errors p ErrCodeTooSmall
          ("String must be at least " +:+ Text.fmtInt n +:+
           " character(s) long, got " +:+ Text.fmtInt (Text.len str))
    | None => errors
    end in
  let errors :=
    match maxLength s with
    | Some n =>
        reportIf (n <? Text.len str) b errors p ErrCodeTooBig
          ("String must be at most " +:+ Text.fmtInt n +:+
           " character(s) long, got " +:+ Text.fmtInt (Text.len str))
    | None => errors
    end in
  let errors :=
    reportIf (email s && negb (Regex.MatchString Regex.emailRegex str))
      b errors p ErrCodeInvalidString "Invalid email format" in
  let errors :=
    reportIf (url s && negb (Regex.MatchString Regex.urlRegex str))
      b errors p ErrCodeInvalidString "Invalid URL format" in
  let errors :=
    match regex s with
    | Some matchString =>
        if negb (matchString str)
        then
          let message :=
            if String.eqb (regexMessage s) ""
            then getErrorMessage b p ErrCodeInvalidString
                   "String does not match required pattern"
            else regexMessage s in
          Add errors p ErrCodeInvalidString message
        else errors
    | None => errors
    end in
  let errors :=
    match oneOf s with
    | [] => errors
    | _ :: _ =>
        reportIf (negb (existsb (String.eqb str) (oneOf s)))
          b errors p ErrCodeInvalidEnumValue
          ("String must be one of: " +:+ Text.Join (oneOf s) ", ")
    end in
  let errors :=
    match notOneOf s with
    | [] => errors
    | _ :: _ =>
        reportIf (existsb (String.eqb str) (notOneOf s))
          b errors p ErrCodeInvalidEnumValue
          ("String must not be one of: " +:+ Text.Join (notOneOf s) ", ")
    end in
  let errors :=
    match startsWith s with
    | Some prefix =>
        reportIf (negb (Text.HasPrefix str prefix)) b errors p ErrCodeInvalidString
          ("String must start with '" +:+ prefix +:+ "'")
    | None => errors
    end in
  let errors :=
    match endsWith s with
    | Some suffix =>
        reportIf (negb (Text.HasSuffix str suffix)) b errors p ErrCodeInvalidString
          ("String must end with '" +:+ suffix +:+ "'")
    | None => errors
    end in
  match includes s with
  | Some substring =>
      reportIf (negb (Text.Contains str substring)) b errors p ErrCodeInvalidString
        ("String must include '" +:+ substring +:+ "'")
  | None => errors
  end.

Definition Validate (s : t) (v : value) (p : path) : option ValidationErrors :=
  match v with
  | VNil => onNil (base s) p
  | VString str =>
      let errors := constraints s str p noErrors in
      let errors := applyRefinements (base s) v p errors in
      let errors := applySuperRefinements (base s) v p errors in
      nilIfEmpty errors
  | _ =>
      Some (report (base s) noErrors p ErrCodeInvalidType
              ("Expected string, got " +:+ typeName v))
  end.

End StringSchema.

(* ================================================================== *)
(** ** bool.go *)
(* ================================================================== *)

Module BoolSchema.

Record t := { base : BaseSchema }.

Definition Bool : t := {| base := newBase |}.

Definition Validate (s : t) (v : value) (p : path) : option ValidationErrors :=
  match v with
  | VNil => onNil (base s) p
  | VBool _ =>
      let errors := applyRefinements (base s) v p noErrors in
      let errors := applySuperRefinements (base s) v p errors in
      nilIfEmpty errors
  | _ =>
      Some (report (base s) noErrors p ErrCodeInvalidType
              ("Expected boolean, got " +:+ typeName v))
  end.

End BoolSchema.

(* ================================================================== *)
(** ** The integer schema *)
(* ================================================================== *)

Module IntSchema.

Record t := {
  base : BaseSchema;
  min : option Z;
  max : option Z;
  positive : bool;
  negative : bool;
  nonNegative : bool;
  nonPositive : bool;
  multipleOf : option Z
}.

Definition Int_ : t :=
  {| base := newBase; min := None; max := None; positive := false;
     negative := false; nonNegative := false; nonPositive := false;
     multipleOf := None |}.

(** "Min validation" to "NonPositive validation". *)
Definition bounds (s : t) (num : Z) (p : path) (errors : ValidationErrors)
    : ValidationErrors :=
  let b := base s in
  let errors :=
    match min s with
    | Some m =>
        reportIf (num <? m) b errors p ErrCodeTooSmall
          ("Number must be greater than or equal to " +:+ Text.fmtInt m +:+
           ", got " +:+ Text.fmtInt num)
    | None => errors
    end in
  let errors :=
    match max s with
    | Some m =>
        reportIf (m <? num) b errors p ErrCodeTooBig
          ("Number must be less than or equal to " +:+ Text.fmtInt m +:+
           ", got " +:+ Text.fmtInt num)
    | None => errors
    end in
  let errors :=
    reportIf (positive s && (num <=? 0)) b errors p ErrCodeTooSmall
      ("Number must be positive (> 0), got " +:+ Text.fmtInt num) in
  let errors :=
    reportIf (negative s && (0 <=? num)) b errors p ErrCodeTooBig
      ("Number must be negative (< 0), got " +:+ Text.fmtInt num) in
  let errors :=
    reportIf (nonNegative s && (num <? 0)) b errors p ErrCodeTooSmall
      ("Number must be non-negative (>= 0), got " +:+ Text.fmtInt num) in
  reportIf (nonPositive s && (0 <? num)) b errors p ErrCodeTooBig
    ("Number must be non-positive (<= 0), got " +:+ Text.fmtInt num).

(** "MultipleOf validation": [num%*s.multipleOf != 0].  Go's [%] truncates
    toward zero ([Z.rem]) and panics when the divisor is zero. *)
Definition multiple (s : t) (num : Z) (p : path) (errors : ValidationErrors)
    : option ValidationErrors :=
  match multipleOf s with
  | Some m =>
      if m =? 0 then None
      else Some (reportIf (negb (Z.rem num m =? 0)) (base s) errors p
                   ErrCodeInvalidType
                   ("Number must be a multiple of " +:+ Text.fmtInt m +:+
                    ", got " +:+ Text.fmtInt num))
  | None => Some errors
  end.

Definition Validate (s : t) (v : value) (p : path) : outcome :=
  match v with
  | VNil => Return (onNil (base s) p)
  | VInt k n =>
      if match k with Uint64 => Num.maxInt64 <? n | _ => false end
      then Return (Some (report (base s) noErrors p ErrCodeInvalidType
                           ("Expected integer, got " +:+ typeName v)))
      else
        let num := Num.wrap64 n in
        let errors := bounds s num p noErrors in
        match multiple s num p errors with
        | None => Panic
        | Some errors =>
            let errors := applyRefinements (base s) v p errors in
            let errors := applySuperRefinements (base s) v p errors in
            Return (nilIfEmpty errors)
        end
  | VFloat _ _ =>
      Return (Some (report (base s) noErrors p ErrCodeInvalidType
                      "Expected integer, got float"))
  | _ =>
      Return (Some (report (base s) noErrors p ErrCodeInvalidType
                      ("Expected integer, got " +:+ typeName v)))
  end.

End IntSchema.

(* ================================================================== *)
(** ** float.go *)
(* ================================================================== *)

Module FloatSchema.

Record t := {
  base : BaseSchema;
  min : option float;
  max : option float;
  positive : bool;
  negative : bool;
  nonNegative : bool;
  nonPositive : bool;
  multipleOf : option float
}.

Definition Float_ : t :=
  {| base := newBase; min := None; max := None; positive := false;
     negative := false; nonNegative := false; nonPositive := false;
     multipleOf := None |}.

Section Fmt.
(** [fmt]'s text for a float64 under [%v]. *)
Variable fmtFloat : float -> string.

(** "Min validation" to "MultipleOf validation". *)
Definition constraints (s : t) (num : float) (p : path)
    (errors : ValidationErrors) : ValidationErrors :=
  let b := base s in
  let errors :=
    match min s with
    | Some m =>
        reportIf (PrimFloat.ltb num m) b errors p ErrCodeTooSmall
          ("Number must be greater than or equal to " +:+ fmtFloat m +:+
           ", got " +:+ fmtFloat num)
    | None => errors
    end in
  let errors :=
    match max s with
    | Some m =>
        reportIf (PrimFloat.ltb m num) b errors p ErrCodeTooBig
          ("Number must be less than or equal to " +:+ fmtFloat m +:+
           ", got " +:+ fmtFloat num)
    | None => errors
    end in
  let errors :=
    reportIf (positive s && PrimFloat.leb num 0%float) b errors p ErrCodeTooSmall
      ("Number must be positive (> 0), got " +:+ fmtFloat num) in
  let errors :=
    reportIf (negative s && PrimFloat.leb 0%float num) b errors p ErrCodeTooBig
      ("Number must be negative (< 0), got " +:+ fmtFloat num) in
  let errors :=
    reportIf (nonNegative s && PrimFloat.ltb num 0%float) b errors p
      ErrCodeTooSmall
      ("Number must be non-negative (>= 0), got " +:+ fmtFloat num) in
  let errors :=
    reportIf (nonPositive s && PrimFloat.ltb 0%float num) b errors p
      ErrCodeTooBig
      ("Number must be non-positive (<= 0), got " +:+ fmtFloat num) in
  match multipleOf s with
  | Some m =>
      reportIf (Num.notMultiple num m) b errors p ErrCodeInvalidType
        ("Number must be a multiple of " +:+ fmtFloat m +:+
         ", got " +:+ fmtFloat num)
  | None => errors
  end.

Definition Validate (s : t) (v : value) (p : path) : option ValidationErrors :=
  match v with
  | VNil => onNil (base s) p
  | VInt _ _ =>
      Some (report (base s) noErrors p ErrCodeInvalidType
              "Expected float, got integer")
  | VFloat _ num =>
      let errors := constraints s num p noErrors in
      let errors := applyRefinements (base s) v p errors in
      let errors := applySuperRefinements (base s) v p errors in
      nilIfEmpty errors
  | _ =>
      Some (report (base s) noErrors p ErrCodeInvalidType
              ("Expected float, got " +:+ typeName v))
  end.

End Fmt.
End FloatSchema.

(* ================================================================== *)
(** ** The [Schema] interface and the composite schemas *)
(* ================================================================== *)

(** The seven implementations of the [Schema] interface.  A shape is a Go
    map from names to schemas; the list gives the order in which a run
    ranges over it. *)
Inductive Schema :=
| OfString (s : StringSchema.t)
| OfInt (s : IntSchema.t)
| OfFloat (s : FloatSchema.t)
| OfBool (s : BoolSchema.t)
| OfArray (base : BaseSchema) (elementSchema : Schema)
          (minLength maxLength : option Z) (nonEmpty : bool)
| OfMap (base : BaseSchema) (shape : list (string * Schema)) (strict : bool)
| OfStruct (base : BaseSchema) (shape : list (string * Schema)) (strict : bool).

(** [if fieldErrors != nil { errors.Errors = append(errors.Errors,
    fieldErrors.Errors...) }]. *)
Definition appendErrors (errors : ValidationErrors)
    (more : option ValidationErrors) : ValidationErrors :=
  match more with
  | Some e => {| Errors := Errors errors ++ Errors e |}
  | None => errors
  end.

(** [obj[key]] with its "comma ok". *)
Fixpoint lookupKey {A} (entries : list (string * A)) (key : string) : option A :=
  match entries with
  | [] => None
  | (k, a) :: rest => if String.eqb k key then Some a else lookupKey rest key
  end.

Definition hasKey {A} (entries : list (string * A)) (key : string) : bool :=
  match lookupKey entries key with Some _ => true | None => false end.

(** [isEmptyValue] of map.go. *)
Definition isEmptyValue (v : value) : bool :=
  match v with
  | VNil => true
  | VString s => (String.length s =? 0)%nat
  | VSlice _ elems => (length elems =? 0)%nat
  | VMap _ entries => (length entries =? 0)%nat
  | VPtr _ target => match target with None => true | Some _ => false end
  | VBool b => negb b
  | VInt _ n => n =? 0
  | VFloat _ f => Num.isZero f
  | VArray _ isZero _ | VStruct _ isZero _ | VOpaque _ isZero => isZero
  end.

(** [getStructFieldName] of struct.go. *)
Definition getStructFieldName (field : StructField) : string :=
  let jsonTag := JsonTag field in
  if negb (String.eqb jsonTag "") && negb (String.eqb jsonTag "-")
  then match Text.Index jsonTag "," with
       | Some idx => Text.take idx jsonTag
       | None => jsonTag
       end
  else match Name field with
       | EmptyString => EmptyString
       | String first rest => Text.ToLower1 first +:+ rest
       end.

Definition IsExported (field : StructField) : bool :=
  String.eqb (PkgPath field) "".

(** The [fieldMap] of [StructSchema.Validate]: exported members under their
    schema names, a later member replacing an earlier one of the same name. *)
Definition buildFieldMap (fields : list (StructField * value))
    : gmap string (StructField * value) :=
  fold_left
    (fun fieldMap fv =>
       if IsExported (fst fv)
       then <[ getStructFieldName (fst fv) := fv ]> fieldMap
       else fieldMap)
    fields ∅.

(** The value a member of a struct is validated as. *)
Definition structFieldValue (fieldMap : gmap string (StructField * value))
    (schemaFieldName : string) : value :=
  match fieldMap !! schemaFieldName with
  | None => VNil
  | Some (structField, fieldValue) =>
      let fieldInterface :=
        if IsPtr structField
        then match fieldValue with
             | VPtr _ None => VNil
             | VPtr _ (Some target) => target
             | other => other
             end
        else fieldValue in
      if Text.Contains (JsonTag structField) "omitempty"
         && isEmptyValue fieldInterface
      then VNil
      else fieldInterface
  end.

(** "Convert to map[string]any" of map.go: [obj[keyStr] = ...] for every
    key of the value, under the text [%v] prints for the key.  Keys that
    print alike collapse into one entry, and the last write wins. *)
Definition toObj (entries : list (string * value)) : gmap string value :=
  fold_left (fun obj entry => <[ fst entry := snd entry ]> obj) entries ∅.

(** The keys [for key := range obj] visits, each once.  Go leaves their
    order to the run time; the model takes the order in which the finite
    map lists its entries. *)
Definition objKeys (obj : gmap string value) : list string :=
  fst <$> map_to_list obj.

(** [fieldValue, exists := obj[fieldName]], and nil when the key is
    missing. *)
Definition mapFieldValue (obj : gmap string value) (fieldName : string)
    : value :=
  match obj !! fieldName with
  | Some fieldValue => fieldValue
  | None => VNil
  end.

Section Loops.
Context {schemaT : Type}.
Variable validate : schemaT -> value -> path -> outcome.

(** "Validate each element" of array.go; [None] when a call panics. *)
Fixpoint validateElements (elementSchema : schemaT) (p : path) (i : Z)
    (slice : list value) (errors : ValidationErrors)
    : option ValidationErrors :=
  match slice with
  | [] => Some errors
  | element :: rest =>
      match validate elementSchema element (PathAppend p (PInt i)) with
      | Panic => None
      | Return elementErrors =>
          validateElements elementSchema p (i + 1) rest
            (appendErrors errors elementErrors)
      end
  end.

(** "Validate each field in the shape" of map.go and struct.go; [fieldValue]
    gives the value found for a name. *)
Fixpoint validateShape (fieldValue : string -> value) (p : path)
    (shape : list (string * schemaT)) (errors : ValidationErrors)
    : option ValidationErrors :=
  match shape with
  | [] => Some errors
  | (fieldName, schema) :: rest =>
      match validate schema (fieldValue fieldName)
              (PathAppend p (PStr fieldName)) with
      | Panic => None
      | Return fieldErrors =>
          validateShape fieldValue p rest (appendErrors errors fieldErrors)
      end
  end.

End Loops.

(** "Check for unknown keys if strict mode is enabled": one turn. *)
Definition unknownKey {A} (b : BaseSchema) (shape : list (string * A))
    (p : path) (what : string) (errors : ValidationErrors) (key : string)
    : ValidationErrors :=
  if hasKey shape key then errors
  else
    let keyPath := PathAppend p (PStr key) in
    report b errors keyPath ErrCodeUnrecognizedKeys
      ("Unrecognized " +:+ what +:+ " '" +:+ key +:+ "'").

(** The tail of every composite [Validate]. *)
Definition refine (b : BaseSchema) (v : value) (p : path)
    (errors : ValidationErrors) : option ValidationErrors :=
  let errors := applyRefinements b v p errors in
  let errors := applySuperRefinements b v p errors in
  nilIfEmpty errors.

(** "Length validations" of array.go. *)
Definition arrayLengths (b : BaseSchema) (minLength maxLength : option Z)
    (nonEmpty : bool) (n : Z) (p : path) (errors : ValidationErrors)
    : ValidationErrors :=
  let errors :=
    reportIf (nonEmpty && (n =? 0)) b errors p ErrCodeTooSmall
      "Array must not be empty" in
  let errors :=
    match minLength with
    | Some m =>
        reportIf (n <? m) b errors p ErrCodeTooSmall
          ("Array must have at least " +:+ Text.fmtInt m +:+
           " element(s), got " +:+ Text.fmtInt n)
    | None => errors
    end in
  match maxLength with
  | Some m =>
      reportIf (m <? n) b errors p ErrCodeTooBig
        ("Array must have at most " +:+ Text.fmtInt m +:+
         " element(s), got " +:+ Text.fmtInt n)
  | None => errors
  end.

Definition orPanic (r : option ValidationErrors)
    (k : ValidationErrors -> option ValidationErrors) : outcome :=
  match r with
  | Some errors => Return (k errors)
  | None => Panic
  end.

Section Engine.
(** [fmt]'s text for a float64 under [%v]. *)
Variable fmtFloat : float -> string.

(** [Schema.Validate], by the dynamic type of the schema. *)
Fixpoint Validate (s : Schema) (v : value) (p : path) {struct s} : outcome :=
  match s with
  | OfString s => Return (StringSchema.Validate s v p)
  | OfInt s => IntSchema.Validate s v p
  | OfFloat s => Return (FloatSchema.Validate fmtFloat s v p)
  | OfBool s => Return (BoolSchema.Validate s v p)
  | OfArray b elementSchema minLength maxLength nonEmpty =>
      let elements slice :=
        let errors :=
          arrayLengths b minLength maxLength nonEmpty
            (Z.of_nat (length slice)) p noErrors in
        orPanic (validateElements Validate elementSchema p 0 slice errors)
                (refine b v p) in
      match v with
      | VNil => Return (onNil b p)
      | VSlice _ slice => elements slice
      | VArray _ _ slice => elements slice
      | _ => Return (Some (report b noErrors p ErrCodeInvalidType
                             ("Expected array, got " +:+ typeName v)))
      end
  | OfMap b shape strict =>
      match v with
      | VNil => Return (onNil b p)
      | VMap _ entries =>
          let obj := toObj entries in
          orPanic (validateShape Validate (mapFieldValue obj) p shape noErrors)
            (fun errors =>
               let errors :=
                 if strict
                 then fold_left (unknownKey b shape p "key") (objKeys obj) errors
                 else errors in
               refine b v p errors)
      | _ => Return (Some (report b noErrors p ErrCodeInvalidType
                             ("Expected map, got " +:+ typeName v)))
      end
  | OfStruct b shape strict =>
      let fields members :=
        let fieldMap := buildFieldMap members in
        orPanic (validateShape Validate (structFieldValue fieldMap) p shape
                   noErrors)
          (fun errors =>
             let errors :=
               if strict
               then fold_left (unknownKey b shape p "field")
                      (map getStructFieldName
                         (List.filter IsExported (map fst members)))
                      errors
               else errors in
             refine b v p errors) in
      let invalid :=
        Return (Some (report b noErrors p ErrCodeInvalidType
                        ("Expected struct, got " +:+ typeName v))) in
      match v with
      | VNil => Return (onNil b p)
      | VPtr _ None => Return (onNil b p)
      | VPtr _ (Some (VStruct _ _ members)) => fields members
      | VStruct _ _ members => fields members
      | _ => invalid
      end
  end.

End Engine.

(* ================================================================== *)
(** ** Builders used by the examples *)
(* ================================================================== *)

Definition setNilable (b : BaseSchema) : BaseSchema :=
  {| required := required b; nilable := true; customErrors := customErrors b;
     errorFormatter := errorFormatter b; refinements := refinements b;
     superRefinements := superRefinements b |}.

(** [addRefinement]. *)
Definition addRefinement (b : BaseSchema) (validator : RefineFunc) : BaseSchema :=
  {| required := required b; nilable := nilable b;
     customErrors := customErrors b; errorFormatter := errorFormatter b;
     refinements := refinements b ++ [validator];
     superRefinements := superRefinements b |}.

(** [addSuperRefinement]. *)
Definition addSuperRefinement (b : BaseSchema) (validator : SuperRefineFunc)
    : BaseSchema :=
  {| required := required b; nilable := nilable b;
     customErrors := customErrors b; errorFormatter := errorFormatter b;
     refinements := refinements b;
     superRefinements := superRefinements b ++ [validator] |}.

(** [CustomError(code, message)]: [customErrors[code] = message]. *)
Definition setCustomError (b : BaseSchema) (code message : string) : BaseSchema :=
  {| required := required b; nilable := nilable b;
     customErrors := <[ code := message ]> (customErrors b);
     errorFormatter := errorFormatter b; refinements := refinements b;
     superRefinements := superRefinements b |}.

(** [SetErrorFormatter(formatter)]. *)
Definition setErrorFormatter (b : BaseSchema) (formatter : CustomErrorFunc)
    : BaseSchema :=
  {| required := required b; nilable := nilable b;
     customErrors := customErrors b; errorFormatter := Some formatter;
     refinements := refinements b; superRefinements := superRefinements b |}.

Module StringBuild.
Import StringSchema.

Definition withBase (f : BaseSchema -> BaseSchema) (s : t) : t :=
  {| base := f (base s); minLength := minLength s; maxLength := maxLength s;
     email := email s; url := url s; regex := regex s;
     regexMessage := regexMessage s; oneOf := oneOf s; notOneOf := notOneOf s;
     startsWith := startsWith s; endsWith := endsWith s;
     includes := includes s |}.

Definition Min (length : Z) (s : t) : t :=
  {| base := base s; minLength := Some length; maxLength := maxLength s;
     email := email s; url := url s; regex := regex s;
     regexMessage := regexMessage s; oneOf := oneOf s; notOneOf := notOneOf s;
     startsWith := startsWith s; endsWith := endsWith s;
     includes := includes s |}.

Definition Nilable : t -> t := withBase setNilable.
Definition Refine (validator : RefineFunc) : t -> t :=
  withBase (fun b => addRefinement b validator).
Definition CustomError (code message : string) : t -> t :=
  withBase (fun b => setCustomError b code message).
Definition SetErrorFormatter (formatter : CustomErrorFunc) : t -> t :=
  withBase (fun b => setErrorFormatter b formatter).

End StringBuild.

Module IntBuild.
Import IntSchema.

Definition MultipleOf (m : Z) (s : t) : t :=
  {| base := base s; min := min s; max := max s; positive := positive s;
     negative := negative s; nonNegative := nonNegative s;
     nonPositive := nonPositive s; multipleOf := Some m |}.

End IntBuild.

Module FloatBuild.
Import FloatSchema.

Definition MultipleOf (m : float) (s : t) : t :=
  {| base := base s; min := min s; max := max s; positive := positive s;
     negative := negative s; nonNegative := nonNegative s;
     nonPositive := nonPositive s; multipleOf := Some m |}.

End FloatBuild.

(** [Array(elementSchema)], [Map(shape)] and [Struct(shape)]. *)
Definition Array (elementSchema : Schema) : Schema :=
  OfArray newBase elementSchema None None false.
Definition Map (shape : list (string * Schema)) : Schema :=
  OfMap newBase shape false.
Definition Struct (shape : list (string * Schema)) : Schema :=
  OfStruct newBase shape false.

(** The methods every schema type repeats on its embedded [BaseSchema]:
    each changes the base and returns the schema. *)
Definition mapBase (f : BaseSchema -> BaseSchema) (s : Schema) : Schema :=
  match s with
  | OfString s => OfString (StringBuild.withBase f s)
  | OfInt s =>
      OfInt {| IntSchema.base := f (IntSchema.base s);
               IntSchema.min := IntSchema.min s;
               IntSchema.max := IntSchema.max s;
               IntSchema.positive := IntSchema.positive s;
               IntSchema.negative := IntSchema.negative s;
               IntSchema.nonNegative := IntSchema.nonNegative s;
               IntSchema.nonPositive := IntSchema.nonPositive s;
               IntSchema.multipleOf := IntSchema.multipleOf s |}
  | OfFloat s =>
      OfFloat {| FloatSchema.base := f (FloatSchema.base s);
                 FloatSchema.min := FloatSchema.min s;
                 FloatSchema.max := FloatSchema.max s;
                 FloatSchema.positive := FloatSchema.positive s;
                 FloatSchema.negative := FloatSchema.negative s;
                 FloatSchema.nonNegative := FloatSchema.nonNegative s;
                 FloatSchema.nonPositive := FloatSchema.nonPositive s;
                 FloatSchema.multipleOf := FloatSchema.multipleOf s |}
  | OfBool s => OfBool {| BoolSchema.base := f (BoolSchema.base s) |}
  | OfArray b elementSchema minLength maxLength nonEmpty =>
      OfArray (f b) elementSchema minLength maxLength nonEmpty
  | OfMap b shape strict => OfMap (f b) shape strict
  | OfStruct b shape strict => OfStruct (f b) shape strict
  end.

(** [Nilable()], [Refine(validator)], [SuperRefine(validator)],
    [CustomError(code, message)] and [SetErrorFormatter(formatter)]. *)
Definition Nilable : Schema -> Schema := mapBase setNilable.
Definition Refine (validator : RefineFunc) : Schema -> Schema :=
  mapBase (fun b => addRefinement b validator).
Definition SuperRefine (validator : SuperRefineFunc) : Schema -> Schema :=
  mapBase (fun b => addSuperRefinement b validator).
Definition CustomError (code message : string) : Schema -> Schema :=
  mapBase (fun b => setCustomError b code message).
Definition SetErrorFormatter (formatter : CustomErrorFunc) : Schema -> Schema :=
  mapBase (fun b => setErrorFormatter b formatter).

(** A renderer of floats for the examples: Go's [%b], the mantissa as an
    integer and the binary exponent, which is exact and easy to compute. *)
Definition fmtFloatB (f : float) : string :=
  match Prim2SF f with
  | S754_zero sign => (if sign then "-" else "") +:+ "0p-1074"
  | S754_infinity sign => if sign then "-Inf" else "+Inf"
  | S754_nan => "NaN"
  | S754_finite sign m e =>
      (if sign then "-" else "") +:+ Text.fmtInt (Z.pos m) +:+ "p" +:+
      (if 0 <=? e then "+" else "") +:+ Text.fmtInt e
  end.

(* ================================================================== *)
(** ** Vocabulary of the statements *)
(* ================================================================== *)

(** The [BaseSchema] embedded in a schema. *)
Definition baseOf (s : Schema) : BaseSchema :=
  match s with
  | OfString s => StringSchema.base s
  | OfInt s => IntSchema.base s
  | OfFloat s => FloatSchema.base s
  | OfBool s => BoolSchema.base s
  | OfArray b _ _ _ _ => b
  | OfMap b _ _ => b
  | OfStruct b _ _ => b
  end.

(** The primitive kind a scalar schema declares. *)
Definition declaredKind (s : Schema) : option primKind :=
  match s with
  | OfString _ => Some KString
  | OfInt _ => Some KInteger
  | OfFloat _ => Some KFloat
  | OfBool _ => Some KBool
  | _ => None
  end.

(** A failure recorded through [getErrorMessage]. *)
Definition failure (b : BaseSchema) (p : path) (code text : string)
    : ValidationError :=
  {| Path := p; Message := getErrorMessage b p code text; Code := code;
     Meta := None |}.

(** The failures a list of simple refinements adds for a value. *)
Definition refinementFailures (b : BaseSchema) (v : value) (p : path)
    : list ValidationError :=
  flat_map
    (fun refine : RefineFunc =>
       let '(valid, message) := refine v in
       if valid then []
       else [ failure b p ErrCodeCustomValidation
                (if String.eqb message "" then "Custom validation failed"
                 else message) ])
    (refinements b).

(** The failure one issue of a context-aware refinement becomes. *)
Definition issueFailure (basePath : path) (i : Issue) : ValidationError :=
  {| Path := basePath ++ issuePath i; Message := issueMessage i;
     Code := issueCode i; Meta := issueMeta i |}.

Definition superFailures (b : BaseSchema) (v : value) (p : path)
    : list ValidationError :=
  flat_map (fun superRefine : SuperRefineFunc => map (issueFailure p) (superRefine v))
           (superRefinements b).

(** Some integer schema inside [s] has the multiple-of divisor zero. *)
Fixpoint zeroDivisor (s : Schema) : bool :=
  match s with
  | OfInt s => match IntSchema.multipleOf s with
               | Some m => m =? 0
               | None => false
               end
  | OfArray _ elementSchema _ _ _ => zeroDivisor elementSchema
  | OfMap _ shape _ | OfStruct _ shape _ =>
      (fix any (shape : list (string * Schema)) : bool :=
         match shape with
         | [] => false
         | (_, schema) :: rest => zeroDivisor schema || any rest
         end) shape
  | _ => false
  end.

(** The value passes the type check of a scalar schema: it has the
    schema's kind, and for an integer schema it is not a uint64 above the
    largest int64. *)
Definition passesTypeCheck (s : Schema) (v : value) : bool :=
  match s, v with
  | OfString _, VString _ => true
  | OfInt _, VInt Uint64 n => negb (Num.maxInt64 <? n)
  | OfInt _, VInt _ _ => true
  | OfFloat _, VFloat _ _ => true
  | OfBool _, VBool _ => true
  | _, _ => false
  end.

(** What [Validate] may answer for the schema [s]. *)
Definition wellFormed (s : Schema) (o : outcome) : Prop :=
  match o with
  | Return None => True
  | Return (Some errors) => Errors errors <> []
  | Panic => zeroDivisor s = true
  end.

(** The failures a returned result stands for; nothing for a panic. *)
Definition returned (o : outcome) : option (list ValidationError) :=
  match o with
  | Return (Some e) => Some (Errors e)
  | Return None => Some []
  | Panic => None
  end.

(** The failures of a run of calls, one after the other, unless one of
    them panics. *)
Definition inOrder (calls : list outcome) : option (list ValidationError) :=
  (fun parts => concat parts) <$> mapM returned calls.

(** The calls the loop over a slice makes from index [start] on. *)
Definition elementCalls (fmtFloat : float -> string) (elementSchema : Schema)
    (p : path) (start : nat) (slice : list value) : list outcome :=
  imap (fun i element =>
          Validate fmtFloat elementSchema element
            (p ++ [PInt (Z.of_nat (start + i))]))
       slice.

(** The bytes of a string. *)
Abbreviation bytes := list_ascii_of_string (only parsing).

Definition noBracket (s : string) : Prop :=
  Forall (fun c => c <> "["%char) (bytes s).

(** A name without a bracket in it. *)
Definition plain (part : pathPart) : Prop :=
  match part with
  | PStr s => noBracket s
  | _ => False
  end.

(** An int or int64 index that is not negative. *)
Definition indexPart (part : pathPart) : Prop :=
  exists i, 0 <= i /\ (part = PInt i \/ part = PInt64 i).

(** The key of [FieldErrors] for a rendered path: the text before the
    first [[digits]], the whole text when there is none. *)
Definition fieldKey (pathStr : string) : string :=
  match Regex.FindIndex Regex.arrayIndexRegex pathStr with
  | Some start => Text.take start pathStr
  | None => pathStr
  end.

(** What the joining loop of [PathToString] appends to its first part. *)
Fixpoint joined (parts : list string) : string :=
  match parts with
  | [] => ""
  | part :: rest =>
      (if Text.HasPrefix part "[" then part else "." +:+ part) +:+ joined rest
  end.

(** The messages of the failures whose path renders to nothing. *)
Definition formMessages (errors : list ValidationError) : list string :=
  Message <$> filter (fun err => PathToString (Path err) = "") errors.

(** The messages of the failures filed under [key]. *)
Definition fieldMessages (key : string) (errors : list ValidationError)
    : list string :=
  Message <$>
    filter (fun err => PathToString (Path err) <> ""
                       /\ fieldKey (PathToString (Path err)) = key) errors.

(** A group of [FieldErrors] after more messages were appended to it. *)
Definition grouped (old : option (list string)) (msgs : list string)
    : option (list string) :=
  match old, msgs with
  | None, [] => None
  | _, _ => Some (default [] old ++ msgs)
  end.

(* ------------------------------------------------------------------ *)
(** *** Predicates of the proofs *)

(** [e'] is [e] with failures added at its end, each satisfying [P]. *)
Definition grows (P : ValidationError -> Prop) (e e' : ValidationErrors) : Prop :=
  exists added, Errors e' = Errors e ++ added /\ Forall P added.

(** What a built-in constraint records at [p]: a failure at [p] whose code
    is one of the constraint codes, never [custom_validation]. *)
Definition builtin (p : path) (e : ValidationError) : Prop :=
  Path e = p /\ Meta e = None /\
  In (Code e) [ErrCodeTooSmall; ErrCodeTooBig; ErrCodeInvalidString;
               ErrCodeInvalidEnumValue; ErrCodeInvalidType].

(** The language of a pattern. *)
Inductive matches {sym : Type} : Regex.re sym -> list sym -> Prop :=
| MEps : matches Regex.Eps []
| MCls p c : p c = true -> matches (Regex.Cls p) [c]
| MCat r1 r2 s1 s2 :
    matches r1 s1 -> matches r2 s2 -> matches (Regex.Cat r1 r2) (s1 ++ s2)
| MAltL r1 r2 s : matches r1 s -> matches (Regex.Alt r1 r2) s
| MAltR r1 r2 s : matches r2 s -> matches (Regex.Alt r1 r2) s
| MStar0 r : matches (Regex.Star r) []
| MStarS r s1 s2 :
    matches r s1 -> matches (Regex.Star r) s2 ->
    matches (Regex.Star r) (s1 ++ s2).

(** The failure lies at [p] or below it. *)
Definition under (p : path) (e : ValidationError) : Prop :=
  exists rest, Path e = p ++ rest.

(** Every failure of a returned collection lies at [p] or below it. *)
Definition allUnder (p : path) (o : outcome) : Prop :=
  match o with
  | Return (Some errors) => Forall (under p) (Errors errors)
  | _ => True
  end.

(** A part of a path that is a name or an index. *)
Definition nameOrIndex (part : pathPart) : Prop :=
  match part with
  | POther _ => False
  | _ => True
  end.

#[global] Instance pathPart_eq_dec : EqDecision pathPart.
Proof. solve_decision. Defined.

(** Every simple refinement accepts the value and no context-aware
    refinement adds an issue for it. *)
Definition refinementsPass (b : BaseSchema) (v : value) : Prop :=
  Forall (fun refine : RefineFunc => fst (refine v) = true) (refinements b) /\
  Forall (fun superRefine : SuperRefineFunc => superRefine v = [])
         (superRefinements b).

(** [e'] has no failure exactly when [e] has none and [C] holds. *)
Definition quiet (C : Prop) (e e' : ValidationErrors) : Prop :=
  Errors e' = [] <-> Errors e = [] /\ C.

(** The number of messages a flattened result holds. *)
Definition messageCount (r : FlattenErrorResult) : nat :=
  (length (FormErrors r) +
   map_fold (fun _ msgs n => length msgs + n) 0 (FieldErrors r))%nat.

(** The value is what a schema reads as absent: nil, and for a struct
    schema a nil pointer too. *)
Definition absent (s : Schema) (v : value) : bool :=
  match v, s with
  | VNil, _ => true
  | VPtr _ None, OfStruct _ _ _ => true
  | _, _ => false
  end.

(** The value has the kind a composite schema takes: a slice or an array
    for an array schema, a map for a map schema, a struct or a pointer to
    one for a struct schema. *)
Definition takes (s : Schema) (v : value) : bool :=
  match s, v with
  | OfArray _ _ _ _ _, (VSlice _ _ | VArray _ _ _) => true
  | OfMap _ _ _, VMap _ _ => true
  | OfStruct _ _ _, (VStruct _ _ _ | VPtr _ (Some (VStruct _ _ _))) => true
  | _, _ => false
  end.

(** The word a composite schema has for what it expects. *)
Definition expected (s : Schema) : string :=
  match s with
  | OfArray _ _ _ _ _ => "array"
  | OfMap _ _ _ => "map"
  | OfStruct _ _ _ => "struct"
  | OfString _ => "string"
  | OfInt _ => "integer"
  | OfFloat _ => "float"
  | OfBool _ => "boolean"
  end.

(** The symbols a pattern can read: those of its classes. *)
Fixpoint alphabet {sym : Type} (r : Regex.re sym) (c : sym) : bool :=
  match r with
  | Regex.Void | Regex.Eps => false
  | Regex.Cls p => p c
  | Regex.Cat r1 r2 | Regex.Alt r1 r2 => alphabet r1 c || alphabet r2 c
  | Regex.Star r1 => alphabet r1 c
  end.

(** A pattern that visibly matches nothing. *)
Fixpoint void {sym : Type} (r : Regex.re sym) : bool :=
  match r with
  | Regex.Void => true
  | Regex.Eps | Regex.Cls _ | Regex.Star _ => false
  | Regex.Cat r1 r2 => void r1 || void r2
  | Regex.Alt r1 r2 => void r1 && void r2
  end.

(** The bytes an e-mail address may be made of. *)
Definition emailByte (b : ascii) : bool :=
  Text.isLetter b || Text.isDigit b || Regex.oneOf "._%+-@" b.

(** The message the resolution chain gives for a code and a default text:
    the formatter's output when a formatter is configured, else the entry of
    the override table for the code when it has one, else the default
    text. *)
Definition resolved (b : BaseSchema) (p : path) (code text : string) : string :=
  match errorFormatter b with
  | Some formatter => formatter p code text
  | None => default text (customErrors b !! code)
  end.


(** Where a failure that a schema records by itself gets its message:
    - the issue of a context-aware refinement keeps the message it was added
      with;
    - the pattern of a string schema that was given a message of its own
      keeps that message;
    - the failure of a simple refinement goes through the chain, with the
      message the refinement returned as the default text, or ["Custom
      validation failed"] when that is empty;
    - every other failure goes through the chain with the default text of
      its check. *)
Inductive ownFailure (s : Schema) (v : value) (p : path)
    : ValidationError -> Prop :=
| FromIssue (superRefine : SuperRefineFunc) (i : Issue) :
    In superRefine (superRefinements (baseOf s)) -> In i (superRefine v) ->
    ownFailure s v p
      {| Path := p ++ issuePath i; Message := issueMessage i;
         Code := issueCode i; Meta := issueMeta i |}
| FromPattern (ss : StringSchema.t) :
    s = OfString ss -> StringSchema.regexMessage ss <> "" ->
    ownFailure s v p
      {| Path := p; Message := StringSchema.regexMessage ss;
         Code := ErrCodeInvalidString; Meta := None |}
| FromRefinement (refine : RefineFunc) (message : string) :
    In refine (refinements (baseOf s)) -> refine v = (false, message) ->
    ownFailure s v p
      {| Path := p;
         Message := resolved (baseOf s) p ErrCodeCustomValidation
                      (if String.eqb message "" then "Custom validation failed"
                       else message);
         Code := ErrCodeCustomValidation; Meta := None |}
| FromCheck (q : path) (code text : string) :
    code <> ErrCodeCustomValidation ->
    ownFailure s v p
      {| Path := q; Message := resolved (baseOf s) q code text;
         Code := code; Meta := None |}.

(** The failures strict mode records for a run of keys: one for each key
    the shape does not declare. *)
Definition unknownKeyFailures {A} (b : BaseSchema) (shape : list (string * A))
    (p : path) (what : string) (keys : list string) : list ValidationError :=
  flat_map
    (fun key =>
       if hasKey shape key then []
       else [ {| Path := p ++ [PStr key];
                 Message := getErrorMessage b (p ++ [PStr key])
                              ErrCodeUnrecognizedKeys
                              ("Unrecognized " +:+ what +:+ " '" +:+ key +:+ "'");
                 Code := ErrCodeUnrecognizedKeys; Meta := None |} ])
    keys.

(** The calls the loop over a shape makes, [fieldValue] giving the value
    found for a name. *)
Definition fieldCalls (fmtFloat : float -> string)
    (shape : list (string * Schema)) (fieldValue : string -> value) (p : path)
    : list outcome :=
  map (fun field : string * Schema =>
         Validate fmtFloat (snd field) (fieldValue (fst field))
           (p ++ [PStr (fst field)]))
      shape.



(* ------------------------------------------------------------------ *)
(** *** Schemas of the counterexamples *)

(** The schema of the counterexample to C3: [String().Min(5)] with a
    refinement that rejects every value. *)
Definition rejecting : StringSchema.t :=
  StringBuild.Refine (fun _ => (false, "never valid"))
    (StringBuild.Min 5 StringSchema.String_).


(* ------------------------------------------------------------------ *)
(** *** Schemas and inputs of the scenarios *)

(** The cross-field check of the package's tests: [confirm] must repeat
    [password]. *)
Definition passwordsMatch : SuperRefineFunc :=
  fun v =>
    match v with
    | VMap _ entries =>
        match lookupKey entries "password", lookupKey entries "confirm" with
        | Some (VString password), Some (VString confirm) =>
            if String.eqb password confirm then []
            else [ {| issuePath := [PStr "confirm"];
                      issueCode := ErrCodeCustomValidation;
                      issueMessage := "Passwords do not match";
                      issueMeta := None |} ]
        | _, _ => []
        end
    | _ => []
    end.

Definition signup : Schema :=
  OfMap (addSuperRefinement newBase passwordsMatch)
    [ ("password", OfString (StringBuild.Min 8 StringSchema.String_));
      ("confirm", OfString (StringBuild.Min 8 StringSchema.String_)) ]
    false.

(** The duplicate check of the package's tests: an issue at the index of
    every element seen before. *)
Fixpoint duplicatesFrom (seen : list Z) (i : Z) (elems : list value)
    : list Issue :=
  match elems with
  | VInt _ n :: rest =>
      (if existsb (Z.eqb n) seen
       then [ {| issuePath := [PInt i]; issueCode := ErrCodeCustomValidation;
                 issueMessage := "Duplicate value found"; issueMeta := None |} ]
       else [])
      ++ duplicatesFrom (n :: seen) (i + 1) rest
  | _ :: rest => duplicatesFrom seen (i + 1) rest
  | [] => []
  end.

Definition noDuplicates : SuperRefineFunc :=
  fun v => match v with
           | VSlice _ elems => duplicatesFrom [] 0 elems
           | _ => []
           end.

(** [type User struct { Name string `json:"name"` }]. *)
Definition user (name : string) : value :=
  VStruct "gozod.User" (String.eqb name "")
    [ ({| Name := "Name"; PkgPath := ""; JsonTag := "name"; IsPtr := false |},
       VString name) ].

(** An exported member with the given [json] tag. *)
Definition member (name jsonTag : string) (isPtr : bool) : StructField :=
  {| Name := name; PkgPath := ""; JsonTag := jsonTag; IsPtr := isPtr |}.

(** [type Account struct { Name string; Email *string `json:"email,omitempty"`;
    Nick string `json:"nick,omitempty"`; Extra string `json:"extra"` }]. *)
Definition account (name : string) (email : option string) (nick extra : string)
    : value :=
  VStruct "gozod.Account" false
    [ (member "Name" "" false, VString name);
      (member "Email" "email,omitempty" true,
       VPtr "*string" (VString <$> email));
      (member "Nick" "nick,omitempty" false, VString nick);
      (member "Extra" "extra" false, VString extra) ].

Definition accountShape : list (string * Schema) :=
  [ ("name", OfString (StringBuild.Min 2 StringSchema.String_));
    ("email", OfString (StringBuild.Nilable StringSchema.String_));
    ("nick", OfString (StringBuild.Nilable (StringBuild.Min 3 StringSchema.String_))) ].

(* ================================================================== *)
(** ** Scenarios of the specification and of the package's tests *)
(* ================================================================== *)

Example string_min_5 :
  StringSchema.Validate (StringBuild.Min 5 StringSchema.String_) (VString "hi") [] =
  Some {| Errors :=
    [ {| Path := [];
         Message := "String must be at least 5 character(s) long, got 2";
         Code := ErrCodeTooSmall; Meta := None |} ] |}.
Proof. vm_compute. reflexivity. Qed.

(** With an override for the code and a formatter both set, the formatter
    gives the message. *)
Example formatter_over_table :
  StringSchema.Validate
    (StringBuild.SetErrorFormatter
       (fun _ code defaultMessage => code +:+ ": " +:+ defaultMessage)
       (StringBuild.CustomError ErrCodeTooSmall "Too short"
          (StringBuild.Min 5 StringSchema.String_)))
    (VString "hi") [] =
  Some {| Errors :=
    [ {| Path := [];
         Message := "too_small: String must be at least 5 character(s) long, got 2";
         Code := ErrCodeTooSmall; Meta := None |} ] |}.
Proof. vm_compute. reflexivity. Qed.

Example passwords_differ :
  Validate fmtFloatB signup
    (VMap "map[string]interface {}"
       [("password", VString "password123"); ("confirm", VString "different123")])
    [] =
  Return (Some {| Errors :=
    [ {| Path := [PStr "confirm"]; Message := "Passwords do not match";
         Code := ErrCodeCustomValidation; Meta := None |} ] |}).
Proof. vm_compute. reflexivity. Qed.

Example duplicate_at_index_2 :
  Validate fmtFloatB
    (OfArray (addSuperRefinement newBase noDuplicates) (OfInt IntSchema.Int_)
       None None false)
    (VSlice "[]int" [VInt Int 1; VInt Int 2; VInt Int 2]) [] =
  Return (Some {| Errors :=
    [ {| Path := [PInt 2]; Message := "Duplicate value found";
         Code := ErrCodeCustomValidation; Meta := None |} ] |}).
Proof. vm_compute. reflexivity. Qed.

Example strict_map_extra_key :
  Validate fmtFloatB (OfMap newBase [("name", OfString StringSchema.String_)] true)
    (VMap "map[string]interface {}"
       [("name", VString "John"); ("extra", VString "value")]) [] =
  Return (Some {| Errors :=
    [ {| Path := [PStr "extra"]; Message := "Unrecognized key 'extra'";
         Code := ErrCodeUnrecognizedKeys; Meta := None |} ] |}).
Proof. vm_compute. reflexivity. Qed.

Example struct_by_json_tag :
  Validate fmtFloatB (Struct [("name", OfString StringSchema.String_)])
    (user "John") [] = Return None
  /\ Validate fmtFloatB (Struct [("name", OfString StringSchema.String_)])
       (VPtr "*gozod.User" (Some (user "John"))) [] = Return None
  /\ Validate fmtFloatB (Struct [("name", OfString StringSchema.String_)])
       (VPtr "*gozod.User" None) [] =
     Return (Some {| Errors :=
       [ {| Path := []; Message := "Required"; Code := ErrCodeRequired;
            Meta := None |} ] |}).
Proof. repeat split; vm_compute; reflexivity. Qed.

(** Members are found under their tag name, or under their own name with
    the first letter lowered; a nil pointer and an empty [omitempty] member
    are validated as nil; strict mode reports the member not in the shape. *)
Example struct_members :
  Validate fmtFloatB (OfStruct newBase accountShape false)
    (account "John" None "" "x") [] = Return None
  /\ Validate fmtFloatB (OfStruct newBase accountShape false)
       (account "J" (Some "j@example.com") "jo" "x") [] =
     Return (Some {| Errors :=
       [ {| Path := [PStr "name"];
            Message := "String must be at least 2 character(s) long, got 1";
            Code := ErrCodeTooSmall; Meta := None |};
         {| Path := [PStr "nick"];
            Message := "String must be at least 3 character(s) long, got 2";
            Code := ErrCodeTooSmall; Meta := None |} ] |})
  /\ Validate fmtFloatB (OfStruct newBase accountShape true)
       (account "John" None "" "x") [] =
     Return (Some {| Errors :=
       [ {| Path := [PStr "extra"]; Message := "Unrecognized field 'extra'";
            Code := ErrCodeUnrecognizedKeys; Meta := None |} ] |}).
Proof. repeat split; vm_compute; reflexivity. Qed.

Example PathToString_cases :
  map PathToString
    [ []; [PStr "user"]; [PStr "user"; PStr "email"]; [PStr "test"; PInt 0];
      [PStr "user"; PStr "tags"; PInt 0; PStr "name"]; [PInt 0];
      [PStr "user"; PInt64 5] ] =
  [ ""; "user"; "user.email"; "test[0]"; "user.tags[0].name"; "[0]"; "user[5]" ].
Proof. vm_compute. reflexivity. Qed.

Example email_cases :
  map (Regex.MatchString Regex.emailRegex)
    [ "user@example.com"; "test.email@domain.co.uk"; "user+tag@example.com";
      "notanemail"; "@example.com"; "user@"; "user@.com"; "user @example.com";
      "user@example" ] =
  [ true; true; true; false; false; false; false; false; false ].
Proof. vm_compute. reflexivity. Qed.

Example url_cases :
  map (Regex.MatchString Regex.urlRegex)
    [ "http://example.com"; "https://example.com/path?query=value";
      "not a url"; "example.com"; "ftp://example.com"; "http://"; "http:// " ] =
  [ true; true; false; false; false; false; false ].
Proof. vm_compute. reflexivity. Qed.

Example int_multiple_of_zero_panics :
  IntSchema.Validate (IntBuild.MultipleOf 0 IntSchema.Int_) (VInt Int 5) [] = Panic.
Proof. reflexivity. Qed.

(* ================================================================== *)
(** ** Facts about the failure collection *)
(* ================================================================== *)

Lemma Errors_Add e p code message :
  Errors (Add e p code message) =
  Errors e ++ [ {| Path := p; Message := message; Code := code; Meta := None |} ].
Proof. reflexivity. Qed.

Lemma Errors_report b e p code text :
  Errors (report b e p code text) = Errors e ++ [failure b p code text].
Proof. reflexivity. Qed.

Lemma Errors_eta (e : ValidationErrors) : {| Errors := Errors e |} = e.
Proof. now destruct e. Qed.

Lemma Errors_inj (e1 e2 : ValidationErrors) : Errors e1 = Errors e2 -> e1 = e2.
Proof. destruct e1, e2; simpl; congruence. Qed.

Lemma nilIfEmpty_Some e e' :
  nilIfEmpty e = Some e' -> e' = e /\ Errors e <> [].
Proof.
  unfold nilIfEmpty. destruct (Errors e) eqn:E; [discriminate|].
  intros [= <-]. split; [reflexivity | discriminate].
Qed.

Lemma onNil_required b p :
  nilable b = false ->
  onNil b p = Some {| Errors := [failure b p ErrCodeRequired "Required"] |}.
Proof. unfold onNil. now intros ->. Qed.

Lemma PathAppend_fold (parts base : path) :
  fold_left PathAppend parts base = base ++ parts.
Proof.
  revert base. induction parts as [|part parts IH]; intros base; simpl.
  - now rewrite app_nil_r.
  - rewrite IH. unfold PathAppend. now rewrite <- app_assoc.
Qed.

Lemma Errors_AddIssue basePath e i :
  Errors (AddIssue basePath e i) = Errors e ++ [issueFailure basePath i].
Proof. unfold AddIssue, issueFailure. now rewrite PathAppend_fold. Qed.

Lemma Errors_applyRefinement b v p e refine :
  Errors (applyRefinement b v p e refine) =
  Errors e ++
  (let '(valid, message) := refine v in
   if valid then []
   else [ failure b p ErrCodeCustomValidation
            (if String.eqb message "" then "Custom validation failed"
             else message) ]).
Proof.
  unfold applyRefinement. destruct (refine v) as [valid message].
  destruct valid.
  - now rewrite app_nil_r.
  - rewrite Errors_Add. unfold failure. now destruct (String.eqb message "").
Qed.

Lemma Errors_applyRefinements b v p e :
  Errors (applyRefinements b v p e) = Errors e ++ refinementFailures b v p.
Proof.
  unfold applyRefinements, refinementFailures.
  revert e. induction (refinements b) as [|refine rest IH]; intros e; simpl.
  - now rewrite app_nil_r.
  - rewrite IH, Errors_applyRefinement. now rewrite <- app_assoc.
Qed.

Lemma Errors_AddIssues basePath issues e :
  Errors (fold_left (AddIssue basePath) issues e) =
  Errors e ++ map (issueFailure basePath) issues.
Proof.
  revert e. induction issues as [|i issues IH]; intros e; simpl.
  - now rewrite app_nil_r.
  - rewrite IH, Errors_AddIssue. now rewrite <- app_assoc.
Qed.

Lemma Errors_applySuperRefinements b v p e :
  Errors (applySuperRefinements b v p e) = Errors e ++ superFailures b v p.
Proof.
  unfold applySuperRefinements, superFailures.
  revert e. induction (superRefinements b) as [|f rest IH]; intros e; simpl.
  - now rewrite app_nil_r.
  - rewrite IH, Errors_AddIssues. now rewrite <- app_assoc.
Qed.

Lemma refine_nonempty b v p e e' : refine b v p e = Some e' -> Errors e' <> [].
Proof.
  unfold refine. intros H. now apply nilIfEmpty_Some in H as [-> ?].
Qed.

(* ================================================================== *)
(** ** The absence value *)
(* ================================================================== *)

Section Claims.
Variable fmtFloat : float -> string.

Lemma Validate_nil s p : Validate fmtFloat s VNil p = Return (onNil (baseOf s) p).
Proof. destruct s; reflexivity. Qed.

(** C1.  For each of the seven schemas, validating nil returns the single
    failure [required] exactly when the schema is not nilable, and returns
    nil (valid) exactly when it is; a struct schema treats a nil pointer of
    any type as it treats nil. *)
Theorem C1_nil_required_iff_not_nilable (s : Schema) (p : path) :
  (Validate fmtFloat s VNil p =
     Return (Some {| Errors :=
       [ {| Path := p;
            Message := getErrorMessage (baseOf s) p ErrCodeRequired "Required";
            Code := ErrCodeRequired; Meta := None |} ] |})
   <-> nilable (baseOf s) = false)
  /\ (Validate fmtFloat s VNil p = Return None <-> nilable (baseOf s) = true)
  /\ (forall b shape strict ty,
        Validate fmtFloat (OfStruct b shape strict) (VPtr ty None) p =
        Validate fmtFloat (OfStruct b shape strict) VNil p).
Proof.
  rewrite Validate_nil. unfold onNil.
  destruct (nilable (baseOf s)); simpl; repeat split;
    intros; try discriminate; try reflexivity.
Qed.

(** C2.  A scalar schema given a non-nil value of another primitive kind
    returns one failure, of code [invalid_type], at the path it was called
    with; nothing else is recorded. *)
Theorem C2_kind_mismatch_single_invalid_type
    (s : Schema) (k : primKind) (v : value) (p : path) :
  declaredKind s = Some k ->
  v <> VNil ->
  kindOf v <> k ->
  exists e,
    Validate fmtFloat s v p = Return (Some {| Errors := [e] |})
    /\ Code e = ErrCodeInvalidType /\ Path e = p.
Proof.
  intros Hk Hnil Hkind.
  destruct s; simpl in Hk; try discriminate; injection Hk as <-;
    destruct v; simpl in Hkind; try congruence;
    simpl; eexists; (split; [reflexivity | split; reflexivity]).
Qed.

End Claims.

(** A float schema given the int 42: the hypotheses of C2 hold there. *)
Lemma C2_witness :
  exists e,
    Validate fmtFloatB (OfFloat FloatSchema.Float_) (VInt Int 42) [PStr "price"]
      = Return (Some {| Errors := [e] |})
    /\ Code e = ErrCodeInvalidType /\ Path e = [PStr "price"].
Proof.
  apply (C2_kind_mismatch_single_invalid_type fmtFloatB
           (OfFloat FloatSchema.Float_) KFloat (VInt Int 42) [PStr "price"]).
  - reflexivity.
  - discriminate.
  - discriminate.
Defined.

(* ================================================================== *)
(** ** Built-in constraints, then refinements *)
(* ================================================================== *)

Lemma grows_refl P e : grows P e e.
Proof. exists []. split; [now rewrite app_nil_r | constructor]. Qed.

Lemma grows_trans P e1 e2 e3 : grows P e1 e2 -> grows P e2 e3 -> grows P e1 e3.
Proof.
  intros (l1 & H1 & F1) (l2 & H2 & F2). exists (l1 ++ l2). split.
  - now rewrite H2, H1, <- app_assoc.
  - now apply Forall_app.
Qed.

Lemma grows_Add (P : ValidationError -> Prop) e p code message :
  P {| Path := p; Message := message; Code := code; Meta := None |} ->
  grows P e (Add e p code message).
Proof. intros HP. eexists. split; [apply Errors_Add | now repeat constructor]. Qed.

Lemma grows_reportIf (P : ValidationError -> Prop) cond b e p code text :
  P (failure b p code text) -> grows P e (reportIf cond b e p code text).
Proof.
  intros HP. destruct cond; simpl; [|apply grows_refl].
  now apply grows_Add.
Qed.

Lemma builtin_not_custom p e : builtin p e -> Code e <> ErrCodeCustomValidation.
Proof.
  intros (_ & _ & Hin) Heq. rewrite Heq in Hin. simpl in Hin.
  repeat (destruct Hin as [Hin | Hin]; [discriminate|]). exact Hin.
Qed.

Ltac builtin_failure :=
  repeat split; simpl; auto 8.

Ltac grows_leaf :=
  repeat first
    [ apply grows_refl
    | apply grows_reportIf; builtin_failure
    | apply grows_Add; builtin_failure
    | match goal with
      | |- grows _ _ (match ?o with _ => _ end) => destruct o
      end ].

(** Follows a chain of [let errors := ... in ...], one constraint at a time. *)
Ltac grows_chain :=
  repeat lazymatch goal with
  | |- grows ?P ?e (let x := ?X in @?F x) =>
      lazymatch type of X with
      | ValidationErrors =>
          apply (grows_trans P e X);
          [ grows_leaf
          | let e' := fresh "errors" in
            generalize X; intros e';
            let t := eval cbv beta in (F e') in change (grows P e' t) ]
      | _ => let t := eval cbv beta in (F X) in change (grows P e t)
      end
  end;
  grows_leaf.

Lemma string_constraints_grow s str p e :
  grows (builtin p) e (StringSchema.constraints s str p e).
Proof. cbv beta delta [StringSchema.constraints]. grows_chain. Qed.

Lemma int_bounds_grow s num p e :
  grows (builtin p) e (IntSchema.bounds s num p e).
Proof. cbv beta delta [IntSchema.bounds]. grows_chain. Qed.

Lemma int_multiple_grow s num p e e' :
  IntSchema.multiple s num p e = Some e' -> grows (builtin p) e e'.
Proof.
  unfold IntSchema.multiple. destruct (IntSchema.multipleOf s) as [m|].
  - destruct (m =? 0); [discriminate|]. intros [= <-]. grows_leaf.
  - intros [= <-]. apply grows_refl.
Qed.

Lemma float_constraints_grow fmtFloat s num p e :
  grows (builtin p) e (FloatSchema.constraints fmtFloat s num p e).
Proof. cbv beta delta [FloatSchema.constraints]. grows_chain. Qed.

Lemma refine_grows b v p e built :
  Errors e = built ->
  refine b v p e =
  nilIfEmpty {| Errors := built ++ refinementFailures b v p ++ superFailures b v p |}.
Proof.
  intros <-. unfold refine. f_equal. apply Errors_inj. simpl.
  now rewrite Errors_applySuperRefinements, Errors_applyRefinements, <- app_assoc.
Qed.

Lemma answer_nilIfEmpty (l : list ValidationError) :
  Return (nilIfEmpty {| Errors := l |}) =
  match l with
  | [] => Return None
  | first :: rest => Return (Some {| Errors := first :: rest |})
  end.
Proof. now destruct l. Qed.

Section Refinements.
Variable fmtFloat : float -> string.

(** C3, as the code has it.  On a value that passes the type check, a
    scalar schema returns the failures of its built-in constraints (all at
    the current path, none of code [custom_validation]), then one
    [custom_validation] failure for every simple refinement that rejects the
    value, then the issues of the context-aware refinements, and nil exactly
    when there is none of them: the refinements run whether or not a
    built-in constraint failed.  Three things keep them from running: nil
    and a value that fails the type check, for which the result is nil or
    the single failure [required] or [invalid_type]; and an integer schema
    whose multiple-of divisor is zero, which panics on every integer before
    it reaches them. *)
Theorem C3_refinements_follow_constraints
    (s : Schema) (k : primKind) (v : value) (p : path) :
  declaredKind s = Some k ->
  match passesTypeCheck s v, zeroDivisor s with
  | true, true => Validate fmtFloat s v p = Panic
  | true, false =>
      exists built,
        Forall (fun e => Path e = p /\ Code e <> ErrCodeCustomValidation) built /\
        Validate fmtFloat s v p =
        match built ++ refinementFailures (baseOf s) v p
                    ++ superFailures (baseOf s) v p with
        | [] => Return None
        | first :: rest => Return (Some {| Errors := first :: rest |})
        end
  | false, _ =>
      Validate fmtFloat s v p = Return None \/
      exists code text,
        (code = ErrCodeRequired \/ code = ErrCodeInvalidType) /\
        Validate fmtFloat s v p =
        Return (Some {| Errors := [failure (baseOf s) p code text] |})
  end.
Proof.
  intros Hkind.
  assert (Hweaken : forall l, Forall (builtin p) l ->
            Forall (fun e => Path e = p /\ Code e <> ErrCodeCustomValidation) l).
  { intros l Hl. induction Hl as [|e l He _ IH]; constructor; [|exact IH].
    split; [apply He | eapply builtin_not_custom, He]. }
  assert (Hnil : forall b,
            Return (onNil b p) = Return None \/
            exists code text,
              (code = ErrCodeRequired \/ code = ErrCodeInvalidType) /\
              Return (onNil b p) =
              Return (Some {| Errors := [failure b p code text] |})).
  { intros b. unfold onNil. destruct (negb (nilable b)); [right | now left].
    exists ErrCodeRequired, "Required". split; [now left | reflexivity]. }
  assert (Hmismatch : forall b text,
            Return (Some (report b noErrors p ErrCodeInvalidType text)) =
              Return None \/
            exists code text',
              (code = ErrCodeRequired \/ code = ErrCodeInvalidType) /\
              Return (Some (report b noErrors p ErrCodeInvalidType text)) =
              Return (Some {| Errors := [failure b p code text'] |})).
  { intros b text. right. exists ErrCodeInvalidType, text.
    split; [now right | reflexivity]. }
  destruct s as [s|s|s|s| | |]; try discriminate Hkind.
  - destruct v; cbn [passesTypeCheck zeroDivisor Validate baseOf];
      try apply Hnil; try apply Hmismatch.
    destruct (string_constraints_grow s s0 p noErrors) as (l & Hl & Fl).
    exists l. split; [auto|]. rewrite <- answer_nilIfEmpty. f_equal.
    now apply (refine_grows (StringSchema.base s)).
  - destruct v; cbn [passesTypeCheck zeroDivisor Validate baseOf];
      unfold IntSchema.Validate; try apply Hnil; try apply Hmismatch.
    replace (match k0 with
             | Uint64 => negb (Num.maxInt64 <? n)
             | _ => true
             end)
      with (negb (match k0 with Uint64 => Num.maxInt64 <? n | _ => false end))
      by (now destruct k0).
    destruct (match k0 with Uint64 => Num.maxInt64 <? n | _ => false end);
      cbn [negb]; [apply Hmismatch|].
    cbv zeta.
    destruct (IntSchema.multiple s (Num.wrap64 n) p
                (IntSchema.bounds s (Num.wrap64 n) p noErrors)) as [e'|] eqn:Hm.
    + assert (Hzero : match IntSchema.multipleOf s with
                      | Some m => m =? 0
                      | None => false
                      end = false).
      { unfold IntSchema.multiple in Hm.
        destruct (IntSchema.multipleOf s) as [m|]; [|reflexivity].
        now destruct (m =? 0). }
      rewrite Hzero.
      destruct (int_bounds_grow s (Num.wrap64 n) p noErrors) as (l1 & Hl1 & Fl1).
      destruct (int_multiple_grow _ _ _ _ _ Hm) as (l2 & Hl2 & Fl2).
      exists (l1 ++ l2). split; [apply Hweaken; now apply Forall_app|].
      rewrite <- answer_nilIfEmpty. f_equal.
      apply (refine_grows (IntSchema.base s)). now rewrite Hl2, Hl1.
    + assert (Hzero : match IntSchema.multipleOf s with
                      | Some m => m =? 0
                      | None => false
                      end = true).
      { unfold IntSchema.multiple in Hm.
        destruct (IntSchema.multipleOf s) as [m|]; [|discriminate].
        now destruct (m =? 0). }
      now rewrite Hzero.
  - destruct v; cbn [passesTypeCheck zeroDivisor Validate baseOf];
      try apply Hnil; try apply Hmismatch.
    destruct (float_constraints_grow fmtFloat s f p noErrors) as (l & Hl & Fl).
    exists l. split; [auto|]. rewrite <- answer_nilIfEmpty. f_equal.
    now apply (refine_grows (FloatSchema.base s)).
  - destruct v; cbn [passesTypeCheck zeroDivisor Validate baseOf];
      try apply Hnil; try apply Hmismatch.
    exists []. split; [constructor|]. rewrite <- answer_nilIfEmpty. f_equal.
    now apply (refine_grows (BoolSchema.base s)).
Qed.

End Refinements.

(** C3 as claimed fails: ["hi"] is too short for [Min(5)], and the failure
    of the refinement is returned next to [too_small]. *)
Lemma C3_counterexample :
  StringSchema.Validate rejecting (VString "hi") [] =
  Some {| Errors :=
    [ {| Path := [];
         Message := "String must be at least 5 character(s) long, got 2";
         Code := ErrCodeTooSmall; Meta := None |};
      {| Path := []; Message := "never valid";
         Code := ErrCodeCustomValidation; Meta := None |} ] |}.
Proof. vm_compute. reflexivity. Qed.

(** C3 at that schema and value: the type check passes, no divisor is zero,
    and the failure of the refinement follows the one built-in failure. *)
Lemma C3_witness :
  exists built,
    Forall (fun e => Path e = [] /\ Code e <> ErrCodeCustomValidation) built /\
    Validate fmtFloatB (OfString rejecting) (VString "hi") [] =
    match built ++ refinementFailures (StringSchema.base rejecting) (VString "hi") []
                ++ superFailures (StringSchema.base rejecting) (VString "hi") [] with
    | [] => Return None
    | first :: rest => Return (Some {| Errors := first :: rest |})
    end.
Proof.
  exact (C3_refinements_follow_constraints fmtFloatB (OfString rejecting)
           KString (VString "hi") [] eq_refl).
Defined.

(* ================================================================== *)
(** ** Multiple-of *)
(* ================================================================== *)

Lemma refine_keeps b v p e x :
  In x (Errors e) ->
  exists e', refine b v p e = Some e' /\ In x (Errors e').
Proof.
  intros Hin.
  rewrite (refine_grows b v p e (Errors e) eq_refl).
  destruct (Errors e) as [|y l] eqn:E; [destruct Hin|].
  eexists. split.
  - reflexivity.
  - simpl. simpl in Hin. destruct Hin as [Hin|Hin]; [now left | right].
    apply in_or_app. now left.
Qed.

Section MultipleOf.
Variable fmtFloat : float -> string.

(** C7, at the input where the code parts from it.  [Float().MultipleOf(2.5)]
    rejects 6.2, as the package's test expects, and accepts -6.2: the
    quotient -2.48 is truncated toward zero to -2, the difference -0.48 is
    not above 0.0001, and no failure is recorded. *)
Theorem C7_negative_quotient_accepted :
  FloatSchema.Validate fmtFloat
    (FloatBuild.MultipleOf 2.5 FloatSchema.Float_) (VFloat Float64 6.2) [] =
  Some {| Errors :=
    [ {| Path := [];
         Message := "Number must be a multiple of " +:+ fmtFloat 2.5 +:+
                    ", got " +:+ fmtFloat 6.2;
         Code := ErrCodeInvalidType; Meta := None |} ] |}
  /\ FloatSchema.Validate fmtFloat
       (FloatBuild.MultipleOf 2.5 FloatSchema.Float_) (VFloat Float64 (-6.2)) []
     = None.
Proof. split; vm_compute; reflexivity. Qed.

(** C10.  An integer that is not a multiple of the divisor of an integer
    schema, and a float that fails the multiple-of test of a float schema,
    are both reported with the code [invalid_type], the code of a kind
    mismatch, although the value passed the type check. *)
Theorem C10_multiple_of_reports_invalid_type
    (si : IntSchema.t) (k : intKind) (n m : Z)
    (sf : FloatSchema.t) (fk : floatKind) (num d : float) (p : path) :
  IntSchema.multipleOf si = Some m ->
  m <> 0 ->
  passesTypeCheck (OfInt si) (VInt k n) = true ->
  Z.rem (Num.wrap64 n) m <> 0 ->
  FloatSchema.multipleOf sf = Some d ->
  Num.notMultiple num d = true ->
  (exists errors,
     Validate fmtFloat (OfInt si) (VInt k n) p = Return (Some errors)
     /\ In {| Path := p;
              Message := getErrorMessage (IntSchema.base si) p ErrCodeInvalidType
                ("Number must be a multiple of " +:+ Text.fmtInt m +:+
                 ", got " +:+ Text.fmtInt (Num.wrap64 n));
              Code := ErrCodeInvalidType; Meta := None |} (Errors errors))
  /\ (exists errors,
        Validate fmtFloat (OfFloat sf) (VFloat fk num) p = Return (Some errors)
        /\ In {| Path := p;
                 Message := getErrorMessage (FloatSchema.base sf) p
                   ErrCodeInvalidType
                   ("Number must be a multiple of " +:+ fmtFloat d +:+
                    ", got " +:+ fmtFloat num);
                 Code := ErrCodeInvalidType; Meta := None |} (Errors errors)).
Proof.
  intros Hm Hm0 Htyped Hrem Hd Hfails. split.
  - simpl.
    assert (Hrange : match k with Uint64 => Num.maxInt64 <? n | _ => false end = false).
    { simpl in Htyped. destruct k; try reflexivity.
      now destruct (Num.maxInt64 <? n). }
    rewrite Hrange. unfold IntSchema.multiple. rewrite Hm.
    destruct (m =? 0) eqn:E; [apply Z.eqb_eq in E; contradiction|].
    assert (Hne : negb (Z.rem (Num.wrap64 n) m =? 0) = true).
    { apply negb_true_iff, Z.eqb_neq, Hrem. }
    rewrite Hne. simpl reportIf.
    match goal with
    | |- context [applyRefinements ?b ?v ?q ?e] =>
        destruct (refine_keeps b v q e (failure b q ErrCodeInvalidType
          ("Number must be a multiple of " +:+ Text.fmtInt m +:+
           ", got " +:+ Text.fmtInt (Num.wrap64 n)))) as (e' & He' & Hin)
    end.
    { rewrite Errors_report. apply in_or_app. right. now left. }
    exists e'. split; [|exact Hin]. unfold refine in He'. now rewrite He'.
  - simpl.
    match goal with
    | |- context [applyRefinements ?b ?v ?q ?e] =>
        destruct (refine_keeps b v q e (failure b q ErrCodeInvalidType
          ("Number must be a multiple of " +:+ fmtFloat d +:+
           ", got " +:+ fmtFloat num))) as (e' & He' & Hin)
    end.
    { unfold FloatSchema.constraints. rewrite Hd, Hfails. simpl reportIf.
      rewrite Errors_report. apply in_or_app. right. now left. }
    exists e'. split; [|exact Hin]. unfold refine in He'. now rewrite He'.
Qed.

End MultipleOf.

(** [Int().MultipleOf(5)] on 7 and [Float().MultipleOf(2.5)] on 6.2, the
    rejected inputs of the package's tests, meet the hypotheses of C10. *)
Lemma C10_witness :
  (exists errors,
     Validate fmtFloatB (OfInt (IntBuild.MultipleOf 5 IntSchema.Int_))
       (VInt Int 7) [] = Return (Some errors)
     /\ In {| Path := [];
              Message := getErrorMessage newBase [] ErrCodeInvalidType
                ("Number must be a multiple of " +:+ Text.fmtInt 5 +:+
                 ", got " +:+ Text.fmtInt (Num.wrap64 7));
              Code := ErrCodeInvalidType; Meta := None |} (Errors errors))
  /\ (exists errors,
        Validate fmtFloatB (OfFloat (FloatBuild.MultipleOf 2.5 FloatSchema.Float_))
          (VFloat Float64 6.2) [] = Return (Some errors)
        /\ In {| Path := [];
                 Message := getErrorMessage newBase [] ErrCodeInvalidType
                   ("Number must be a multiple of " +:+ fmtFloatB 2.5 +:+
                    ", got " +:+ fmtFloatB 6.2);
                 Code := ErrCodeInvalidType; Meta := None |} (Errors errors)).
Proof.
  apply (C10_multiple_of_reports_invalid_type fmtFloatB
           (IntBuild.MultipleOf 5 IntSchema.Int_) Int 7 5
           (FloatBuild.MultipleOf 2.5 FloatSchema.Float_) Float64 6.2 2.5 []).
  - reflexivity.
  - discriminate.
  - reflexivity.
  - vm_compute. discriminate.
  - reflexivity.
  - vm_compute. reflexivity.
Defined.

(* ================================================================== *)
(** ** Induction on schemas, and the shape of every result *)
(* ================================================================== *)

Section SchemaInduction.
Variable P : Schema -> Prop.
Hypothesis HString : forall s, P (OfString s).
Hypothesis HInt : forall s, P (OfInt s).
Hypothesis HFloat : forall s, P (OfFloat s).
Hypothesis HBool : forall s, P (OfBool s).
Hypothesis HArray : forall b elementSchema minLength maxLength nonEmpty,
  P elementSchema -> P (OfArray b elementSchema minLength maxLength nonEmpty).
Hypothesis HMap : forall b shape strict,
  Forall (fun field => P (snd field)) shape -> P (OfMap b shape strict).
Hypothesis HStruct : forall b shape strict,
  Forall (fun field => P (snd field)) shape -> P (OfStruct b shape strict).

Fixpoint Schema_nested_ind (s : Schema) : P s :=
  let shapes :=
    fix shapes (shape : list (string * Schema))
        : Forall (fun field => P (snd field)) shape :=
      match shape with
      | [] => List.Forall_nil _
      | (name, schema) :: rest =>
          List.Forall_cons _ (name, schema) rest (Schema_nested_ind schema)
            (shapes rest)
      end in
  match s with
  | OfString s => HString s
  | OfInt s => HInt s
  | OfFloat s => HFloat s
  | OfBool s => HBool s
  | OfArray b elementSchema minLength maxLength nonEmpty =>
      HArray b elementSchema minLength maxLength nonEmpty
        (Schema_nested_ind elementSchema)
  | OfMap b shape strict => HMap b shape strict (shapes shape)
  | OfStruct b shape strict => HStruct b shape strict (shapes shape)
  end.

End SchemaInduction.


Section Loops_facts.
Context {schemaT : Type}.
Variable validate : schemaT -> value -> path -> outcome.



End Loops_facts.

Lemma orPanic_shape r k :
  (forall errors e', k errors = Some e' -> Errors e' <> []) ->
  match orPanic r k with
  | Return None => True
  | Return (Some errors) => Errors errors <> []
  | Panic => r = None
  end.
Proof.
  intros Hk. destruct r as [errors|]; simpl; [|reflexivity].
  destruct (k errors) as [e'|] eqn:E; [|exact I]. now apply (Hk errors).
Qed.

Lemma onNil_shape b p :
  match onNil b p with
  | None => True
  | Some errors => Errors errors <> []
  end.
Proof. unfold onNil. destruct (negb (nilable b)); simpl; [discriminate | exact I]. Qed.

Lemma nilIfEmpty_shape e :
  match nilIfEmpty e with
  | None => True
  | Some errors => Errors errors <> []
  end.
Proof.
  destruct (nilIfEmpty e) as [e'|] eqn:E; [|exact I].
  now apply nilIfEmpty_Some in E as [-> ?].
Qed.

Lemma scalar_shape (s : Schema) (r : option ValidationErrors) :
  match r with None => True | Some errors => Errors errors <> [] end ->
  wellFormed s (Return r).
Proof. now destruct r. Qed.

Lemma int_shape (s : IntSchema.t) (v : value) (p : path) :
  wellFormed (OfInt s) (IntSchema.Validate s v p).
Proof.
  unfold IntSchema.Validate.
  destruct v; try (apply scalar_shape; first
    [ apply onNil_shape | simpl; discriminate ]).
  destruct (match k with Uint64 => Num.maxInt64 <? n | _ => false end);
    [apply scalar_shape; simpl; discriminate|].
  unfold IntSchema.multiple.
  destruct (IntSchema.multipleOf s) as [m|] eqn:Hm.
  - destruct (m =? 0) eqn:E.
    + simpl. now rewrite Hm.
    + apply scalar_shape, nilIfEmpty_shape.
  - apply scalar_shape, nilIfEmpty_shape.
Qed.

Section Invariant.
Variable fmtFloat : float -> string.


End Invariant.

(* ================================================================== *)
(** ** Arrays: every element, in index order *)
(* ================================================================== *)

Lemma Errors_appendErrors e r l :
  returned (Return r) = Some l -> Errors (appendErrors e r) = Errors e ++ l.
Proof.
  destruct r as [e'|]; simpl; intros [= <-]; [reflexivity|].
  now rewrite app_nil_r.
Qed.

Lemma inOrder_cons o calls :
  inOrder (o :: calls) =
  match returned o, inOrder calls with
  | Some l, Some rest => Some (l ++ rest)
  | _, _ => None
  end.
Proof.
  unfold inOrder. simpl.
  destruct (returned o) as [l|]; simpl; [|reflexivity].
  now destruct (mapM returned calls).
Qed.

Section Arrays.
Variable fmtFloat : float -> string.

Lemma validateElements_inOrder elementSchema p slice : forall start errors,
  validateElements (Validate fmtFloat) elementSchema p (Z.of_nat start)
    slice errors =
  (fun l => {| Errors := Errors errors ++ l |}) <$>
    inOrder (elementCalls fmtFloat elementSchema p start slice).
Proof.
  induction slice as [|x rest IH]; intros start errors.
  - simpl. now rewrite app_nil_r, Errors_eta.
  - assert (Hcalls : elementCalls fmtFloat elementSchema p start (x :: rest) =
             Validate fmtFloat elementSchema x (p ++ [PInt (Z.of_nat start)])
             :: elementCalls fmtFloat elementSchema p (S start) rest).
    { unfold elementCalls. rewrite imap_cons. f_equal.
      - do 4 f_equal. lia.
      - apply imap_ext. intros i y _. simpl. do 4 f_equal. lia. }
    rewrite Hcalls, inOrder_cons. cbn [validateElements]. unfold PathAppend at 1.
    destruct (Validate fmtFloat elementSchema x (p ++ [PInt (Z.of_nat start)]))
      as [r|] eqn:E; [|reflexivity].
    replace (Z.of_nat start + 1) with (Z.of_nat (S start)) by lia.
    rewrite IH.
    destruct (returned (Return r)) as [l|] eqn:Hr; [|now destruct r].
    rewrite (Errors_appendErrors errors r l Hr).
    destruct (inOrder _) as [more|]; simpl; [|reflexivity].
    now rewrite <- app_assoc.
Qed.

(** C5.  An array schema validates every element of the collection, the
    one at index [i] against the element schema at the current path
    extended by [i].  A failing element does not stop the loop: the caller
    gets the failures of all the calls, those of element 0 first, each
    element's in the order its own call gave them, after the length
    failures and before those of the refinements; the result is nil only
    when there is no failure at all.  (The loop ends early only when a call
    on an element panics, and then the whole validation panics.) *)
Theorem C5_all_elements_in_index_order
    (b : BaseSchema) (elementSchema : Schema) (minLength maxLength : option Z)
    (nonEmpty : bool) (slice : list value) (p : path) (v : value) :
  (exists ty, v = VSlice ty slice) \/ (exists ty z, v = VArray ty z slice) ->
  Validate fmtFloat (OfArray b elementSchema minLength maxLength nonEmpty) v p =
  match inOrder (imap (fun i element =>
                         Validate fmtFloat elementSchema element
                           (p ++ [PInt (Z.of_nat i)])) slice) with
  | None => Panic
  | Some fromElements =>
      match Errors (arrayLengths b minLength maxLength nonEmpty
                      (Z.of_nat (length slice)) p noErrors)
            ++ fromElements
            ++ refinementFailures b v p ++ superFailures b v p with
      | [] => Return None
      | first :: rest => Return (Some {| Errors := first :: rest |})
      end
  end.
Proof.
  intros Hv.
  assert (Hloop :
    orPanic (validateElements (Validate fmtFloat) elementSchema p 0 slice
               (arrayLengths b minLength maxLength nonEmpty
                  (Z.of_nat (length slice)) p noErrors))
            (refine b v p) =
    match inOrder (elementCalls fmtFloat elementSchema p 0 slice) with
    | None => Panic
    | Some fromElements =>
        match Errors (arrayLengths b minLength maxLength nonEmpty
                        (Z.of_nat (length slice)) p noErrors)
              ++ fromElements
              ++ refinementFailures b v p ++ superFailures b v p with
        | [] => Return None
        | first :: rest => Return (Some {| Errors := first :: rest |})
        end
    end).
  { change 0 with (Z.of_nat 0). rewrite validateElements_inOrder.
    destruct (inOrder _) as [l|]; simpl; [|reflexivity].
    rewrite <- answer_nilIfEmpty. f_equal.
    erewrite refine_grows; [|reflexivity]. simpl.
    now rewrite <- app_assoc. }
  destruct Hv as [[ty ->] | (ty & z & ->)]; exact Hloop.
Qed.

End Arrays.

(** [Array(Int())] on [[1, "x", nil]] at path [xs]: element 1 fails, and the
    failure of element 2 is still returned after it. *)
Lemma C5_witness :
  Validate fmtFloatB (Array (OfInt IntSchema.Int_))
    (VSlice "[]interface {}" [VInt Int 1; VString "x"; VNil]) [PStr "xs"] =
  Return (Some {| Errors :=
    [ {| Path := [PStr "xs"; PInt 1]; Message := "Expected integer, got string";
         Code := ErrCodeInvalidType; Meta := None |};
      {| Path := [PStr "xs"; PInt 2]; Message := "Required";
         Code := ErrCodeRequired; Meta := None |} ] |}).
Proof.
  refine (eq_trans
    (C5_all_elements_in_index_order fmtFloatB newBase (OfInt IntSchema.Int_)
       None None false [VInt Int 1; VString "x"; VNil] [PStr "xs"]
       (VSlice "[]interface {}" [VInt Int 1; VString "x"; VNil]) _) _).
  - left. exists "[]interface {}". reflexivity.
  - vm_compute. reflexivity.
Defined.

(* ================================================================== *)
(** ** Maps: a missing key and a key holding nil *)
(* ================================================================== *)


Lemma lookupKey_In {A} (l : list (string * A)) key a :
  In (key, a) l -> hasKey l key = true.
Proof.
  unfold hasKey. induction l as [|[k b] l IH]; simpl; [intros []|].
  intros [[= -> ->] | Hin].
  - now rewrite String.eqb_refl.
  - destruct (String.eqb k key); [reflexivity | now apply IH].
Qed.







Section Loops_ext.
Context {schemaT : Type}.
Variable validate : schemaT -> value -> path -> outcome.

Lemma validateShape_ext (get1 get2 : string -> value) p shape :
  (forall name, get1 name = get2 name) ->
  forall errors,
    validateShape validate get1 p shape errors =
    validateShape validate get2 p shape errors.
Proof.
  intros Hget. induction shape as [|[name schema] rest IH]; intros errors;
    simpl; [reflexivity|].
  rewrite Hget. destruct (validate schema (get2 name) _); [apply IH | reflexivity].
Qed.

End Loops_ext.

Lemma unknownKey_known {A} b (shape : list (string * A)) p what errors key :
  hasKey shape key = true -> unknownKey b shape p what errors key = errors.
Proof. unfold unknownKey. now intros ->. Qed.

Lemma refine_plain b v v' p errors :
  refinements b = [] -> superRefinements b = [] ->
  refine b v p errors = refine b v' p errors.
Proof.
  intros Hr Hs. unfold refine, applyRefinements, applySuperRefinements.
  now rewrite Hr, Hs.
Qed.

(* ================================================================== *)
(** ** Facts about text and about the index pattern *)
(* ================================================================== *)

Lemma bytes_app (s1 s2 : string) : bytes (s1 +:+ s2) = bytes s1 ++ bytes s2.
Proof. induction s1 as [|c s1 IH]; simpl; [reflexivity | now rewrite IH]. Qed.

Lemma bytes_inj (s1 s2 : string) : bytes s1 = bytes s2 -> s1 = s2.
Proof.
  intros H. rewrite <- (string_of_list_ascii_of_string s1),
              <- (string_of_list_ascii_of_string s2). now rewrite H.
Qed.

Lemma append_assoc (s1 s2 s3 : string) : (s1 +:+ s2) +:+ s3 = s1 +:+ s2 +:+ s3.
Proof. apply bytes_inj. now rewrite !bytes_app, app_assoc. Qed.

Lemma append_empty_r (s : string) : s +:+ "" = s.
Proof. apply bytes_inj. now rewrite bytes_app, app_nil_r. Qed.

Lemma take_append (s1 s2 : string) : Text.take (String.length s1) (s1 +:+ s2) = s1.
Proof.
  unfold Text.take. induction s1 as [|c s1 IH]; simpl.
  - now destruct s2.
  - now rewrite IH.
Qed.

Lemma length_bytes (s : string) : length (bytes s) = String.length s.
Proof. induction s as [|c s IH]; simpl; [reflexivity | now rewrite IH]. Qed.

(** The text of a natural number is a digit followed by digits. *)
Lemma uint_digits (d : Decimal.uint) :
  Forall (fun c => Text.isDigit c = true) (bytes (NilEmpty.string_of_uint d)).
Proof. induction d; simpl; constructor; auto. Qed.

Lemma fmtInt_digits (n : Z) :
  0 <= n ->
  exists d ds,
    bytes (Text.fmtInt n) = d :: ds
    /\ Forall (fun c => Text.isDigit c = true) (d :: ds).
Proof.
  intros Hn. unfold Text.fmtInt.
  assert (Huint : forall u, exists d ds,
            bytes (NilZero.string_of_uint u) = d :: ds
            /\ Forall (fun c => Text.isDigit c = true) (d :: ds)).
  { intros u. pose proof (uint_digits u) as H.
    destruct u; simpl in *;
      try (eexists _, _; split; [reflexivity | exact H]).
    eexists _, _. split; [reflexivity|]. repeat constructor. }
  destruct n as [|q|q]; simpl; [| apply Huint | lia].
  eexists _, _. split; [reflexivity|]. repeat constructor.
Qed.

Section Regex_facts.
Context {sym : Type}.
Import Regex.

Lemma matches_nil_nullable (r : re sym) s :
  matches r s -> s = [] -> nullable r = true.
Proof.
  induction 1 as [ |p c Hp|r1 r2 s1 s2 H1 IH1 H2 IH2|r1 r2 s H IH
                 |r1 r2 s H IH| |r s1 s2 H1 IH1 H2 IH2];
    intros Hs; simpl; try reflexivity.
  - discriminate.
  - apply app_eq_nil in Hs as [-> ->]. now rewrite IH1, IH2.
  - now rewrite IH.
  - rewrite IH; [apply orb_true_r | exact Hs].
Qed.

Lemma matches_deriv (r : re sym) s' :
  matches r s' -> forall c s, s' = c :: s -> matches (deriv c r) s.
Proof.
  induction 1 as [ |p c' Hp|r1 r2 s1 s2 H1 IH1 H2 IH2|r1 r2 s0 H IH
                 |r1 r2 s0 H IH| |r s1 s2 H1 IH1 H2 IH2];
    intros c s Hs; simpl.
  - discriminate.
  - injection Hs as -> <-. rewrite Hp. constructor.
  - destruct s1 as [|c1 s1]; simpl in Hs.
    + rewrite (matches_nil_nullable r1 [] H1 eq_refl).
      apply MAltR. now apply IH2.
    + injection Hs as -> <-.
      assert (Hcat : matches (Cat (deriv c r1) r2) (s1 ++ s2)).
      { constructor; [now apply IH1 | exact H2]. }
      destruct (nullable r1); [now apply MAltL | exact Hcat].
  - apply MAltL. now apply IH.
  - apply MAltR. now apply IH.
  - discriminate.
  - destruct s1 as [|c1 s1]; simpl in Hs.
    + now apply IH2.
    + injection Hs as -> <-. constructor; [now apply IH1 | exact H2].
Qed.

Lemma prefixMatch_unfold (r : re sym) input :
  prefixMatch r input =
  nullable r || match input with
                | [] => false
                | c :: rest => prefixMatch (deriv c r) rest
                end.
Proof. now destruct input. Qed.

(** A match of a prefix is found. *)
Lemma matches_prefixMatch s1 : forall (r : re sym) s2,
  matches r s1 -> prefixMatch r (s1 ++ s2) = true.
Proof.
  induction s1 as [|c s1 IH]; intros r s2 H; rewrite prefixMatch_unfold.
  - now rewrite (matches_nil_nullable r [] H eq_refl).
  - simpl. rewrite (IH (deriv c r) s2); [apply orb_true_r|].
    now apply (matches_deriv r (c :: s1)).
Qed.

Lemma prefixMatch_Void (r : re sym) input :
  prefixMatch (Cat Void r) input = false.
Proof. induction input as [|c rest IH]; simpl; [reflexivity | exact IH]. Qed.

Lemma prefixMatch_Cls_reject (p : sym -> bool) (r : re sym) c rest :
  p c = false -> prefixMatch (Cat (Cls p) r) (c :: rest) = false.
Proof.
  intros Hp. cbn [prefixMatch nullable deriv andb orb]. rewrite Hp.
  apply prefixMatch_Void.
Qed.

End Regex_facts.

(** The index pattern only matches where a bracket stands. *)
Lemma index_needs_bracket (c : ascii) (rest : list ascii) :
  c <> "["%char ->
  Regex.prefixMatch Regex.arrayIndexRegex (c :: rest) = false.
Proof.
  intros Hc. unfold Regex.arrayIndexRegex. apply prefixMatch_Cls_reject.
  apply Ascii.eqb_neq. congruence.
Qed.

Lemma index_search_skip (before rest : list ascii) :
  Forall (fun c => c <> "["%char) before ->
  Regex.search Regex.arrayIndexRegex (before ++ rest) =
  (fun n => (length before + n)%nat) <$> Regex.search Regex.arrayIndexRegex rest.
Proof.
  induction 1 as [|c before Hc _ IH].
  - simpl. now destruct (Regex.search _ rest).
  - cbn [app Regex.search]. rewrite (index_needs_bracket c _ Hc), IH.
    now destruct (Regex.search _ rest).
Qed.

Lemma index_search_none (text : list ascii) :
  Forall (fun c => c <> "["%char) text ->
  Regex.search Regex.arrayIndexRegex text = None.
Proof.
  intros H. rewrite <- (app_nil_r text), (index_search_skip text [] H).
  reflexivity.
Qed.

Lemma index_matches (d : ascii) (ds : list ascii) :
  Forall (fun c => Text.isDigit c = true) (d :: ds) ->
  matches Regex.arrayIndexRegex ("["%char :: (d :: ds) ++ ["]"%char]).
Proof.
  intros Hd. apply List.Forall_cons_iff in Hd as [Hd Hds].
  apply (MCat _ _ ["["%char] ((d :: ds) ++ ["]"%char])).
  { now constructor. }
  apply (MCat _ _ (d :: ds) ["]"%char]); [|now constructor].
  apply (MCat _ _ [d] ds); [now constructor|].
  induction Hds as [|c cs Hc _ IH]; [constructor|].
  apply (MStarS _ [c] cs); [now constructor | exact IH].
Qed.

(** Where the index pattern is found in [before[digits]after]. *)
Lemma index_search_found (before after : list ascii) (d : ascii) (ds : list ascii) :
  Forall (fun c => c <> "["%char) before ->
  Forall (fun c => Text.isDigit c = true) (d :: ds) ->
  Regex.search Regex.arrayIndexRegex
    (before ++ "["%char :: (d :: ds) ++ "]"%char :: after)
  = Some (length before).
Proof.
  intros Hb Hd. rewrite (index_search_skip _ _ Hb).
  assert (Hfound : Regex.prefixMatch Regex.arrayIndexRegex
            ("["%char :: (d :: ds) ++ "]"%char :: after) = true).
  { replace ("["%char :: (d :: ds) ++ "]"%char :: after)
      with (("["%char :: (d :: ds) ++ ["]"%char]) ++ after)
      by (simpl; now rewrite <- app_assoc).
    apply matches_prefixMatch, index_matches, Hd. }
  destruct after as [|a after'];
    cbn [Regex.search app] in *; rewrite Hfound; simpl; f_equal; lia.
Qed.

(* ================================================================== *)
(** ** Rendering a path, and the key [Flatten] files it under *)
(* ================================================================== *)

Lemma joinParts_joined parts : forall result,
  joinParts result parts = result +:+ joined parts.
Proof.
  induction parts as [|part rest IH]; intros result; cbn [joinParts joined].
  - now rewrite append_empty_r.
  - destruct (Text.HasPrefix part "["); rewrite IH;
      now rewrite ?append_assoc.
Qed.

Lemma PathToString_cons part rest :
  PathToString (part :: rest) = renderPart part +:+ joined (map renderPart rest).
Proof. unfold PathToString. simpl. apply joinParts_joined. Qed.

Lemma joined_app l1 l2 : joined (l1 ++ l2) = joined l1 +:+ joined l2.
Proof.
  induction l1 as [|x l1 IH]; cbn [app joined]; [reflexivity|].
  now rewrite IH, append_assoc.
Qed.

Lemma renderPart_index part :
  indexPart part ->
  exists d ds,
    Forall (fun c => Text.isDigit c = true) (d :: ds)
    /\ bytes (renderPart part) = "["%char :: (d :: ds) ++ ["]"%char].
Proof.
  intros (i & Hi & Hpart).
  destruct (fmtInt_digits i Hi) as (d & ds & Hbytes & Hdigits).
  exists d, ds. split; [exact Hdigits|].
  destruct Hpart as [-> | ->]; unfold renderPart;
    now rewrite !bytes_app, Hbytes.
Qed.

Lemma HasPrefix_bracket (s : string) (rest : list ascii) :
  bytes s = "["%char :: rest -> Text.HasPrefix s "[" = true.
Proof.
  destruct s as [|c s]; cbn [list_ascii_of_string Text.HasPrefix];
    [discriminate|].
  intros [= -> _]. now rewrite Ascii.eqb_refl.
Qed.

(** A path with an index in it: the rendered names, the index, the rest. *)
Lemma PathToString_index names part rest :
  indexPart part ->
  PathToString (names ++ part :: rest) =
  PathToString names +:+ renderPart part +:+ joined (map renderPart rest).
Proof.
  intros Hpart. destruct names as [|name names].
  - simpl app. now rewrite PathToString_cons.
  - simpl app. rewrite !PathToString_cons, map_app, joined_app.
    cbn [map joined].
    destruct (renderPart_index part Hpart) as (d & ds & _ & Hbytes).
    rewrite (HasPrefix_bracket _ _ Hbytes). now rewrite !append_assoc.
Qed.

Lemma HasPrefix_noBracket (s : string) :
  noBracket s -> Text.HasPrefix s "[" = false.
Proof.
  unfold noBracket. destruct s as [|c s]; [reflexivity|].
  cbn [list_ascii_of_string Text.HasPrefix].
  intros H. apply List.Forall_cons_iff in H as [Hc _].
  destruct (Ascii.eqb "[" c) eqn:E; [apply Ascii.eqb_eq in E; congruence|].
  reflexivity.
Qed.

Lemma joined_plain names :
  Forall plain names -> noBracket (joined (map renderPart names)).
Proof.
  unfold noBracket. induction 1 as [|part names Hpart _ IH]; cbn [map joined].
  - constructor.
  - destruct part as [s| | |]; [| exfalso; exact Hpart ..]. cbn [renderPart].
    rewrite (HasPrefix_noBracket s Hpart), !bytes_app.
    cbn [list_ascii_of_string app].
    constructor; [discriminate|]. apply Forall_app. split; [exact Hpart | exact IH].
Qed.

Lemma PathToString_plain names :
  Forall plain names -> noBracket (PathToString names).
Proof.
  intros H. destruct H as [|part names Hpart Hnames]; [constructor|].
  rewrite PathToString_cons. unfold noBracket. rewrite bytes_app.
  apply Forall_app. split; [|now apply joined_plain].
  destruct part; [exact Hpart | exfalso; exact Hpart ..].
Qed.

Lemma joined_empty parts : joined parts = "" -> parts = [].
Proof.
  destruct parts as [|part rest]; [reflexivity|]. cbn [joined]. intros H.
  apply (f_equal list_ascii_of_string) in H. rewrite bytes_app in H.
  cbn [list_ascii_of_string] in H. apply app_eq_nil in H as [H _].
  destruct (Text.HasPrefix part "[") eqn:E; [|discriminate].
  destruct part; [discriminate E | discriminate H].
Qed.

Lemma PathToString_empty (p : path) :
  PathToString p = "" <-> p = [] \/ p = [PStr ""].
Proof.
  split.
  - destruct p as [|part rest]; [now left|]. rewrite PathToString_cons.
    intros H. right.
    apply (f_equal list_ascii_of_string) in H. rewrite bytes_app in H. simpl in H.
    apply app_eq_nil in H as [Hpart Hrest].
    assert (Hjoined : joined (map renderPart rest) = "") by now apply bytes_inj.
    apply joined_empty in Hjoined. destruct rest; [|discriminate].
    destruct part as [s| | |]; try discriminate Hpart.
    f_equal. f_equal. now apply bytes_inj.
  - intros [-> | ->]; reflexivity.
Qed.

Lemma fieldKey_plain (s : string) : noBracket s -> fieldKey s = s.
Proof.
  intros H. unfold fieldKey, Regex.FindIndex. now rewrite index_search_none.
Qed.

Lemma fieldKey_index (before index after : string) d ds :
  noBracket before ->
  Forall (fun c => Text.isDigit c = true) (d :: ds) ->
  bytes index = "["%char :: (d :: ds) ++ ["]"%char] ->
  fieldKey (before +:+ index +:+ after) = before.
Proof.
  intros Hb Hd Hi. unfold fieldKey, Regex.FindIndex.
  replace (bytes (before +:+ index +:+ after))
    with (bytes before ++ "["%char :: (d :: ds) ++ "]"%char :: bytes after)
    by (rewrite !bytes_app, Hi; simpl; now rewrite <- app_assoc).
  rewrite (index_search_found (bytes before) (bytes after) d ds Hb Hd).
  rewrite length_bytes. apply take_append.
Qed.

(* ================================================================== *)
(** ** Flatten *)
(* ================================================================== *)

Lemma flattenStep_form r err :
  PathToString (Path err) = "" ->
  flattenStep r err =
  {| FormErrors := FormErrors r ++ [Message err]; FieldErrors := FieldErrors r |}.
Proof. unfold flattenStep. now intros ->. Qed.

Lemma flattenStep_field r err :
  PathToString (Path err) <> "" ->
  flattenStep r err =
  appendField (fieldKey (PathToString (Path err))) (Message err) r.
Proof.
  intros Hne. unfold flattenStep, fieldKey.
  destruct (String.eqb _ "") eqn:E; [apply String.eqb_eq in E; contradiction|].
  now destruct (Regex.FindIndex _ _).
Qed.

Lemma grouped_snoc old msg msgs :
  grouped (Some (default [] old ++ [msg])) msgs = grouped old (msg :: msgs).
Proof. unfold grouped. simpl. rewrite <- app_assoc. now destruct old. Qed.

Lemma Flatten_fold (errors : list ValidationError) : forall r,
  FormErrors (fold_left flattenStep errors r) = FormErrors r ++ formMessages errors
  /\ forall key,
       FieldErrors (fold_left flattenStep errors r) !! key =
       grouped (FieldErrors r !! key) (fieldMessages key errors).
Proof.
  unfold formMessages, fieldMessages.
  induction errors as [|err errors IH]; intros r.
  - simpl. split; [now rewrite app_nil_r|]. intros key. unfold grouped.
    destruct (FieldErrors r !! key); simpl; [now rewrite app_nil_r | reflexivity].
  - cbn [fold_left]. destruct (IH (flattenStep r err)) as [IHform IHfield].
    destruct (decide (PathToString (Path err) = "")) as [Hempty|Hne].
    + rewrite (flattenStep_form r err Hempty) in *. simpl in *. split.
      * rewrite IHform, filter_cons_True by exact Hempty.
        simpl. now rewrite <- app_assoc.
      * intros key. rewrite IHfield, filter_cons_False; [reflexivity|].
        intros [Hne _]. contradiction.
    + rewrite (flattenStep_field r err Hne) in *. unfold appendField in *.
      simpl in *. split.
      * now rewrite IHform, filter_cons_False by exact Hne.
      * intros key. rewrite IHfield.
        destruct (decide (fieldKey (PathToString (Path err)) = key)) as [Hkey|Hkey].
        -- rewrite filter_cons_True by (split; assumption). subst key.
           rewrite lookup_insert_eq. simpl. apply grouped_snoc.
        -- rewrite filter_cons_False by (intros [_ ?]; contradiction).
           now rewrite lookup_insert_ne.
Qed.

(** [Flatten] sorts a failure by the text its path renders to.  The
    messages of the failures whose path renders to the empty text make up
    the form errors; that is the empty path, and also the path of one empty
    name.  Every other failure adds its message
    to the field group keyed by the rendered path cut before its first
    [[digits]], in discovery order.  For a path of names without brackets
    that key is the rendered path; when such names are followed by an index
    that is not negative, the key is the rendered names alone, whatever
    comes after the index, so [tags[0]] and [tags[1]] both go under [tags]. *)
Lemma Flatten_by_rendered_path (e : ValidationErrors) :
  FormErrors (Flatten e) =
    Message <$> filter (fun err => PathToString (Path err) = "") (Errors e)
  /\ (forall key,
        FieldErrors (Flatten e) !! key =
        match Message <$>
                filter (fun err => PathToString (Path err) <> ""
                                   /\ fieldKey (PathToString (Path err)) = key)
                       (Errors e) with
        | [] => None
        | msgs => Some msgs
        end)
  /\ (forall p, PathToString p = "" <-> p = [] \/ p = [PStr ""])
  /\ (forall names,
        Forall plain names -> fieldKey (PathToString names) = PathToString names)
  /\ (forall names index rest,
        Forall plain names -> indexPart index ->
        fieldKey (PathToString (names ++ index :: rest)) = PathToString names).
Proof.
  destruct (Flatten_fold (Errors e) {| FormErrors := []; FieldErrors := ∅ |})
    as [Hform Hfield].
  split; [exact Hform|].
  split.
  { intros key. unfold Flatten. rewrite Hfield. simpl.
    rewrite lookup_empty. unfold grouped, fieldMessages.
    now destruct (Message <$> _). }
  split; [exact PathToString_empty|].
  split.
  { intros names Hnames. now apply fieldKey_plain, PathToString_plain. }
  intros names index rest Hnames Hindex.
  rewrite (PathToString_index names index rest Hindex).
  destruct (renderPart_index index Hindex) as (d & ds & Hdigits & Hbytes).
  apply (fieldKey_index _ _ _ d ds); [|exact Hdigits | exact Hbytes].
  now apply PathToString_plain.
Qed.

(** C8.  [Flatten] tells a form error from a field error by the text the
    path renders to, not by the path.  So every failure at the path of the
    one empty name, which is not the empty path, has its message filed with
    the form errors.  The engine records such a failure: a map schema that
    declares the key [""] reports the missing key at that path, and
    flattening its result gives one form error and no field error, where the
    comment of [Flatten] has the form errors hold the failures of the empty
    path, and the field errors the others. *)
Theorem C8_empty_name_filed_as_form_error :
  (forall (e : ValidationErrors) (err : ValidationError),
     In err (Errors e) -> Path err = [PStr ""] ->
     In (Message err) (FormErrors (Flatten e)))
  /\ Validate fmtFloatB (Map [("", OfString StringSchema.String_)])
       (VMap "map[string]interface {}" []) [] =
     Return (Some {| Errors :=
       [ {| Path := [PStr ""]; Message := "Required"; Code := ErrCodeRequired;
            Meta := None |} ] |})
  /\ Flatten {| Errors :=
       [ {| Path := [PStr ""]; Message := "Required"; Code := ErrCodeRequired;
            Meta := None |} ] |} =
     {| FormErrors := ["Required"]; FieldErrors := ∅ |}.
Proof.
  split; [|split; vm_compute; reflexivity].
  intros e err Hin Hpath.
  destruct (Flatten_fold (Errors e) {| FormErrors := []; FieldErrors := ∅ |})
    as [Hform _].
  unfold Flatten. rewrite Hform. simpl. unfold formMessages.
  apply list_elem_of_In, list_elem_of_fmap. exists err. split; [reflexivity|].
  apply list_elem_of_filter. split; [now rewrite Hpath|].
  now apply list_elem_of_In.
Qed.

(** The scenario of the package's test: failures at [[]], [["name"]],
    [["tags", 0]] and [["tags", 1]]. *)
Example Flatten_scenario (m0 m1 m2 m3 : string) :
  let at_ p m := {| Path := p; Message := m; Code := ErrCodeRequired;
                    Meta := None |} in
  Flatten {| Errors := [ at_ [] m0; at_ [PStr "name"] m1;
                         at_ [PStr "tags"; PInt 0] m2;
                         at_ [PStr "tags"; PInt 1] m3 ] |} =
  {| FormErrors := [m0];
     FieldErrors := {[ "name" := [m1]; "tags" := [m2; m3] ]} |}.
Proof. vm_compute. reflexivity. Qed.

(* ================================================================== *)
(** ** Where the failures of a run lie *)
(* ================================================================== *)

Lemma under_here p e : Path e = p -> under p e.
Proof. intros H. exists []. now rewrite app_nil_r. Qed.

Lemma under_step p part e : under (PathAppend p part) e -> under p e.
Proof.
  intros [rest H]. exists (part :: rest). rewrite H. unfold PathAppend.
  now rewrite <- app_assoc.
Qed.

Lemma under_refinements b v p : Forall (under p) (refinementFailures b v p).
Proof.
  unfold refinementFailures.
  induction (refinements b) as [|f rest IH]; simpl; [constructor|].
  apply Forall_app. split; [|exact IH].
  destruct (f v) as [[] message]; repeat constructor. now apply under_here.
Qed.

Lemma under_super b v p : Forall (under p) (superFailures b v p).
Proof.
  unfold superFailures.
  induction (superRefinements b) as [|f rest IH]; simpl; [constructor|].
  apply Forall_app. split; [|exact IH].
  induction (f v) as [|i issues IHi]; simpl; constructor; [|exact IHi].
  now exists (issuePath i).
Qed.

Lemma refine_under b v p e :
  Forall (under p) (Errors e) -> allUnder p (Return (refine b v p e)).
Proof.
  intros He. rewrite (refine_grows b v p e (Errors e) eq_refl).
  unfold allUnder, nilIfEmpty. simpl.
  destruct (Errors e ++ _) eqn:E; [exact I|]. simpl. rewrite <- E.
  repeat (apply Forall_app; split);
    [exact He | apply under_refinements | apply under_super].
Qed.

Lemma grows_under p e e' :
  grows (builtin p) e e' -> Forall (under p) (Errors e) ->
  Forall (under p) (Errors e').
Proof.
  intros (added & -> & Hadded) He. apply Forall_app. split; [exact He|].
  induction Hadded as [|x l Hx _ IH]; constructor; [|exact IH].
  apply under_here, Hx.
Qed.

Lemma report_under b p code text :
  allUnder p (Return (Some (report b noErrors p code text))).
Proof. simpl. repeat constructor. now apply under_here. Qed.

Lemma onNil_under b p : allUnder p (Return (onNil b p)).
Proof.
  unfold onNil. destruct (negb (nilable b)); [apply report_under | exact I].
Qed.

Lemma appendErrors_under p part e r :
  Forall (under p) (Errors e) -> allUnder (PathAppend p part) (Return r) ->
  Forall (under p) (Errors (appendErrors e r)).
Proof.
  intros He Hr. destruct r as [more|]; simpl; [|exact He].
  apply Forall_app. split; [exact He|]. simpl in Hr.
  induction Hr as [|x l Hx _ IH]; constructor; [|exact IH].
  now apply under_step in Hx.
Qed.

Lemma unknownKeys_under {A} b (shape : list (string * A)) p what keys :
  forall e, Forall (under p) (Errors e) ->
  Forall (under p) (Errors (fold_left (unknownKey b shape p what) keys e)).
Proof.
  induction keys as [|key keys IH]; intros e He; simpl; [exact He|].
  apply IH. unfold unknownKey. destruct (hasKey shape key); [exact He|].
  rewrite Errors_report. apply Forall_app. split; [exact He|].
  repeat constructor. apply (under_step p (PStr key)). now apply under_here.
Qed.

Section Loops_under.
Context {schemaT : Type}.
Variable validate : schemaT -> value -> path -> outcome.

Lemma validateElements_under elementSchema p slice :
  (forall x q, allUnder q (validate elementSchema x q)) ->
  forall i e e', Forall (under p) (Errors e) ->
  validateElements validate elementSchema p i slice e = Some e' ->
  Forall (under p) (Errors e').
Proof.
  intros Helem. induction slice as [|x rest IH]; intros i e e' He; simpl.
  - now intros [= <-].
  - pose proof (Helem x (PathAppend p (PInt i))) as Hx.
    destruct (validate elementSchema x (PathAppend p (PInt i))) as [r|];
      [|discriminate].
    apply IH. now apply (appendErrors_under p (PInt i)).
Qed.

Lemma validateShape_under fieldValue p shape :
  Forall (fun field => forall x q, allUnder q (validate (snd field) x q)) shape ->
  forall e e', Forall (under p) (Errors e) ->
  validateShape validate fieldValue p shape e = Some e' ->
  Forall (under p) (Errors e').
Proof.
  induction 1 as [|[name schema] rest Hfield _ IH]; intros e e' He; simpl.
  - now intros [= <-].
  - pose proof (Hfield (fieldValue name) (PathAppend p (PStr name))) as Hx.
    simpl in Hx.
    destruct (validate schema (fieldValue name) (PathAppend p (PStr name)))
      as [r|]; [|discriminate].
    apply IH. now apply (appendErrors_under p (PStr name)).
Qed.

End Loops_under.

Lemma orPanic_under p r k :
  (forall errors, r = Some errors -> allUnder p (Return (k errors))) ->
  allUnder p (orPanic r k).
Proof. intros H. destruct r as [errors|]; simpl; [now apply H | exact I]. Qed.

Lemma noErrors_under p : Forall (under p) (Errors noErrors).
Proof. constructor. Qed.

Section Paths.
Variable fmtFloat : float -> string.

(** X1.  Whatever the schema, the value and the path [p], every failure of
    the collection [Validate] returns lies at [p] or below it: its path is
    [p] followed by the names and indices that lead to the member, the
    element or the place a refinement pointed at. *)
Theorem X1_failures_lie_under_the_path (s : Schema) (v : value) (p : path) :
  match Validate fmtFloat s v p with
  | Return (Some errors) =>
      Forall (fun e => exists rest, Path e = p ++ rest) (Errors errors)
  | _ => True
  end.
Proof.
  change (allUnder p (Validate fmtFloat s v p)).
  revert v p. induction s as
    [s|s|s|s|b elementSchema minLength maxLength nonEmpty IH
    |b shape strict IH|b shape strict IH] using Schema_nested_ind;
    intros v p.
  - simpl. destruct v; try apply onNil_under; try apply report_under.
    apply (refine_under (StringSchema.base s)).
    apply (grows_under p noErrors); [apply string_constraints_grow|constructor].
  - simpl. unfold IntSchema.Validate.
    destruct v; try apply onNil_under; try apply report_under.
    destruct (match k with Uint64 => Num.maxInt64 <? n | _ => false end);
      [apply report_under|].
    destruct (IntSchema.multiple _ _ _ _) as [errors|] eqn:E; [|exact I].
    apply (refine_under (IntSchema.base s)).
    apply (grows_under p _ _ (int_multiple_grow _ _ _ _ _ E)).
    apply (grows_under p noErrors); [apply int_bounds_grow|constructor].
  - simpl. destruct v; try apply onNil_under; try apply report_under.
    apply (refine_under (FloatSchema.base s)).
    apply (grows_under p noErrors); [apply float_constraints_grow|constructor].
  - simpl. destruct v; try apply onNil_under; try apply report_under.
    apply (refine_under (BoolSchema.base s)). constructor.
  - assert (Hloop : forall slice,
      allUnder p
        (orPanic
           (validateElements (Validate fmtFloat) elementSchema p 0 slice
              (arrayLengths b minLength maxLength nonEmpty
                 (Z.of_nat (length slice)) p noErrors))
           (refine b v p))).
    { intros slice. apply orPanic_under. intros errors Hloop.
      apply refine_under.
      eapply validateElements_under; [exact IH| |exact Hloop].
      apply (grows_under p noErrors); [|constructor].
      cbv beta delta [arrayLengths]. grows_chain. }
    simpl. destruct v; try apply Hloop; try apply onNil_under;
      apply report_under.
  - simpl. destruct v; try apply onNil_under; try apply report_under.
    apply orPanic_under. intros errors Hloop. apply refine_under.
    assert (Hfields : Forall (under p) (Errors errors)).
    { eapply validateShape_under; [exact IH|apply noErrors_under|exact Hloop]. }
    destruct strict; [now apply unknownKeys_under | exact Hfields].
  - assert (Hloop : forall members,
      allUnder p
        (orPanic
           (validateShape (Validate fmtFloat)
              (structFieldValue (buildFieldMap members)) p shape noErrors)
           (fun errors =>
              refine b v p
                (if strict
                 then fold_left (unknownKey b shape p "field")
                        (map getStructFieldName
                           (List.filter IsExported (map fst members))) errors
                 else errors)))).
    { intros members. apply orPanic_under. intros errors Hloop.
      apply refine_under.
      assert (Hfields : Forall (under p) (Errors errors)).
      { eapply validateShape_under; [exact IH|apply noErrors_under|exact Hloop]. }
      destruct strict; [now apply unknownKeys_under | exact Hfields]. }
    simpl. destruct v as [| | | | | | | | |ty target|];
      try apply Hloop; try apply onNil_under; try apply report_under.
    destruct target as [target|]; [|apply onNil_under].
    destruct target; try apply Hloop; apply report_under.
Qed.

End Paths.

(* ================================================================== *)
(** ** When a value is valid *)
(* ================================================================== *)

Lemma quiet_trans C1 C2 e1 e2 e3 :
  quiet C1 e1 e2 -> quiet C2 e2 e3 -> quiet (C1 /\ C2) e1 e3.
Proof. unfold quiet. tauto. Qed.

Lemma quiet_skip (C : Prop) e : C -> quiet C e e.
Proof. unfold quiet. tauto. Qed.

Lemma quiet_reportIf (C : Prop) cond b e p code text :
  (cond = false <-> C) -> quiet C e (reportIf cond b e p code text).
Proof.
  unfold quiet. intros HC. destruct cond; unfold reportIf.
  - rewrite Errors_report. split.
    + intros H. now apply app_eq_nil in H as [_ ?].
    + intros [_ H]. apply HC in H. discriminate.
  - split; [intros H; split; [exact H | now apply HC] | tauto].
Qed.

Lemma quiet_Add (C : Prop) e p code message :
  ~ C -> quiet C e (Add e p code message).
Proof.
  unfold quiet. intros HC. rewrite Errors_Add. split; [|tauto].
  intros H. now apply app_eq_nil in H as [_ ?].
Qed.

Lemma refinementFailures_nil b v p :
  refinementFailures b v p = [] <->
  Forall (fun refine : RefineFunc => fst (refine v) = true) (refinements b).
Proof.
  unfold refinementFailures.
  induction (refinements b) as [|f rest IH]; simpl.
  - split; [constructor | reflexivity].
  - rewrite List.Forall_cons_iff, <- IH. destruct (f v) as [[] message]; simpl.
    + tauto.
    + split; [discriminate | intros [? _]; discriminate].
Qed.

Lemma superFailures_nil b v p :
  superFailures b v p = [] <->
  Forall (fun superRefine : SuperRefineFunc => superRefine v = [])
         (superRefinements b).
Proof.
  unfold superFailures.
  induction (superRefinements b) as [|f rest IH]; simpl.
  - split; [constructor | reflexivity].
  - rewrite List.Forall_cons_iff, <- IH. destruct (f v) as [|i issues]; simpl.
    + tauto.
    + split; [discriminate | intros [? _]; discriminate].
Qed.

Lemma refine_None b v p e :
  refine b v p e = None <-> Errors e = [] /\ refinementsPass b v.
Proof.
  rewrite (refine_grows b v p e (Errors e) eq_refl).
  unfold refinementsPass, nilIfEmpty. simpl.
  rewrite <- (refinementFailures_nil b v p), <- (superFailures_nil b v p).
  destruct (Errors e) as [|x l]; simpl.
  - destruct (refinementFailures b v p); simpl.
    + destruct (superFailures b v p); simpl; [tauto|].
      split; [discriminate | intros (_ & _ & ?); discriminate].
    + split; [discriminate | intros (_ & ? & _); discriminate].
  - split; [discriminate | intros [? _]; discriminate].
Qed.

Lemma refine_fold b v p e :
  nilIfEmpty (applySuperRefinements b v p (applyRefinements b v p e)) =
  refine b v p e.
Proof. reflexivity. Qed.

Lemma quiet_start (C : Prop) e : quiet C noErrors e -> (Errors e = [] <-> C).
Proof. unfold quiet. simpl. tauto. Qed.

Lemma forall_Some {A} (P : A -> Prop) (a : A) :
  (forall m, Some a = Some m -> P m) <-> P a.
Proof. split; [intros H; now apply H | now intros H m [= <-]]. Qed.

Lemma guarded (flag cond : bool) (P : Prop) :
  (cond = false <-> P) -> (flag && cond = false <-> (flag = true -> P)).
Proof. destruct flag; simpl; [tauto|]. intros _. split; [discriminate | reflexivity]. Qed.

(** Follows a chain of [let errors := ... in ...], leaving one goal for
    each constraint. *)
Ltac quiet_chain :=
  repeat lazymatch goal with
  | |- quiet ?C ?e (let x := ?X in @?F x) =>
      lazymatch type of X with
      | ValidationErrors =>
          lazymatch C with
          | ?C1 /\ ?C2 =>
              apply (quiet_trans C1 C2 e X);
              [ | let e' := fresh "errors" in
                  generalize X; intros e';
                  let t := eval cbv beta in (F e') in change (quiet C2 e' t) ]
          end
      | _ => let t := eval cbv beta in (F X) in change (quiet C e t)
      end
  end.

Ltac quiet_option :=
  lazymatch goal with
  | |- quiet _ _ (match ?o with _ => _ end) =>
      destruct o;
      [ apply quiet_reportIf; rewrite forall_Some
      | apply quiet_skip; intros ?; discriminate ]
  end.

Lemma int_bounds_quiet s num p e :
  quiet ((forall m, IntSchema.min s = Some m -> m <= num) /\
         (forall m, IntSchema.max s = Some m -> num <= m) /\
         (IntSchema.positive s = true -> 0 < num) /\
         (IntSchema.negative s = true -> num < 0) /\
         (IntSchema.nonNegative s = true -> 0 <= num) /\
         (IntSchema.nonPositive s = true -> num <= 0))
        e (IntSchema.bounds s num p e).
Proof.
  cbv beta delta [IntSchema.bounds]. quiet_chain.
  - quiet_option. apply Z.ltb_ge.
  - quiet_option. apply Z.ltb_ge.
  - apply quiet_reportIf, guarded, Z.leb_gt.
  - apply quiet_reportIf, guarded. rewrite Z.leb_gt. reflexivity.
  - apply quiet_reportIf, guarded. rewrite Z.ltb_ge. reflexivity.
  - apply quiet_reportIf, guarded. rewrite Z.ltb_ge. reflexivity.
Qed.

Lemma int_multiple_quiet s num p e :
  IntSchema.multipleOf s <> Some 0 ->
  exists e', IntSchema.multiple s num p e = Some e' /\
    quiet (forall m, IntSchema.multipleOf s = Some m -> Z.rem num m = 0) e e'.
Proof.
  intros Hm. unfold IntSchema.multiple.
  destruct (IntSchema.multipleOf s) as [m|].
  - destruct (Z.eqb_spec m 0) as [->|_]; [now contradict Hm|].
    eexists. split; [reflexivity|].
    apply quiet_reportIf. rewrite forall_Some, negb_false_iff. apply Z.eqb_eq.
  - exists e. split; [reflexivity|]. apply quiet_skip. intros ?; discriminate.
Qed.

Lemma existsb_eqb_In (str : string) (l : list string) :
  existsb (String.eqb str) l = true <-> In str l.
Proof.
  rewrite existsb_exists. split.
  - intros (x & Hin & Heq). apply String.eqb_eq in Heq. now subst.
  - intros Hin. exists str. split; [exact Hin | apply String.eqb_refl].
Qed.

Lemma string_constraints_quiet s str p e :
  quiet ((forall n, StringSchema.minLength s = Some n -> n <= Text.len str) /\
         (forall n, StringSchema.maxLength s = Some n -> Text.len str <= n) /\
         (StringSchema.email s = true ->
          Regex.MatchString Regex.emailRegex str = true) /\
         (StringSchema.url s = true ->
          Regex.MatchString Regex.urlRegex str = true) /\
         (forall matchString, StringSchema.regex s = Some matchString ->
          matchString str = true) /\
         (StringSchema.oneOf s <> [] -> In str (StringSchema.oneOf s)) /\
         ~ In str (StringSchema.notOneOf s) /\
         (forall prefix, StringSchema.startsWith s = Some prefix ->
          Text.HasPrefix str prefix = true) /\
         (forall suffix, StringSchema.endsWith s = Some suffix ->
          Text.HasSuffix str suffix = true) /\
         (forall substring, StringSchema.includes s = Some substring ->
          Text.Contains str substring = true))
        e (StringSchema.constraints s str p e).
Proof.
  cbv beta delta [StringSchema.constraints]. quiet_chain.
  - quiet_option. apply Z.ltb_ge.
  - quiet_option. apply Z.ltb_ge.
  - apply quiet_reportIf, guarded, negb_false_iff.
  - apply quiet_reportIf, guarded, negb_false_iff.
  - destruct (StringSchema.regex s) as [matchString|].
    + destruct (matchString str) eqn:E; simpl.
      * apply quiet_skip. now intros m [= <-].
      * apply quiet_Add. intros H. specialize (H _ eq_refl). congruence.
    + apply quiet_skip. intros ?; discriminate.
  - destruct (StringSchema.oneOf s) as [|option options] eqn:E.
    + now apply quiet_skip.
    + apply quiet_reportIf. rewrite negb_false_iff, existsb_eqb_In.
      split; [tauto | intros H; now apply H].
  - destruct (StringSchema.notOneOf s) as [|option options] eqn:E.
    + apply quiet_skip. tauto.
    + apply quiet_reportIf. rewrite <- existsb_eqb_In.
      symmetry. apply not_true_iff_false.
  - quiet_option. apply negb_false_iff.
  - quiet_option. apply negb_false_iff.
  - quiet_option. apply negb_false_iff.
Qed.

Lemma array_lengths_quiet b minLength maxLength nonEmpty n p e :
  quiet ((nonEmpty = true -> n <> 0) /\
         (forall m, minLength = Some m -> m <= n) /\
         (forall m, maxLength = Some m -> n <= m))
        e (arrayLengths b minLength maxLength nonEmpty n p e).
Proof.
  cbv beta delta [arrayLengths]. quiet_chain.
  - apply quiet_reportIf, guarded, Z.eqb_neq.
  - quiet_option. apply Z.ltb_ge.
  - quiet_option. apply Z.ltb_ge.
Qed.

(** X2.  An integer that passes the type check of an integer schema whose
    multiple-of divisor is not zero is valid exactly when the number, as
    an int64, satisfies every bound the schema configures, is a multiple of
    the configured divisor, every simple refinement accepts it and no
    context-aware refinement adds an issue. *)
Theorem X2_int_valid_iff (s : IntSchema.t) (k : intKind) (n : Z) (p : path) :
  passesTypeCheck (OfInt s) (VInt k n) = true ->
  IntSchema.multipleOf s <> Some 0 ->
  IntSchema.Validate s (VInt k n) p = Return None <->
  (forall m, IntSchema.min s = Some m -> m <= Num.wrap64 n) /\
  (forall m, IntSchema.max s = Some m -> Num.wrap64 n <= m) /\
  (IntSchema.positive s = true -> 0 < Num.wrap64 n) /\
  (IntSchema.negative s = true -> Num.wrap64 n < 0) /\
  (IntSchema.nonNegative s = true -> 0 <= Num.wrap64 n) /\
  (IntSchema.nonPositive s = true -> Num.wrap64 n <= 0) /\
  (forall m, IntSchema.multipleOf s = Some m -> Z.rem (Num.wrap64 n) m = 0) /\
  refinementsPass (IntSchema.base s) (VInt k n).
Proof.
  intros Hty Hm. unfold IntSchema.Validate.
  assert (Hc : match k with Uint64 => Num.maxInt64 <? n | _ => false end = false).
  { destruct k; simpl in Hty; try reflexivity. now apply negb_true_iff in Hty. }
  rewrite Hc. cbv zeta.
  destruct (int_multiple_quiet s (Num.wrap64 n) p
              (IntSchema.bounds s (Num.wrap64 n) p noErrors) Hm)
    as (e' & -> & Hmultiple).
  rewrite refine_fold.
  pose proof (quiet_start _ _
    (quiet_trans _ _ _ _ _ (int_bounds_quiet s (Num.wrap64 n) p noErrors)
       Hmultiple)) as Hquiet.
  split.
  - intros [= H]. apply refine_None in H as [H ?]. apply Hquiet in H. tauto.
  - intros H. f_equal. apply refine_None. split; [apply Hquiet|]; tauto.
Qed.

(** [Int().Min(0).Max(120).MultipleOf(5)] on the int8 35. *)
Lemma X2_witness :
  IntSchema.Validate
    {| IntSchema.base := newBase; IntSchema.min := Some 0;
       IntSchema.max := Some 120; IntSchema.positive := false;
       IntSchema.negative := false; IntSchema.nonNegative := false;
       IntSchema.nonPositive := false; IntSchema.multipleOf := Some 5 |}
    (VInt Int8 35) [] = Return None <->
  (forall m, Some 0 = Some m -> m <= Num.wrap64 35) /\
  (forall m, Some 120 = Some m -> Num.wrap64 35 <= m) /\
  (false = true -> 0 < Num.wrap64 35) /\
  (false = true -> Num.wrap64 35 < 0) /\
  (false = true -> 0 <= Num.wrap64 35) /\
  (false = true -> Num.wrap64 35 <= 0) /\
  (forall m, Some 5 = Some m -> Z.rem (Num.wrap64 35) m = 0) /\
  refinementsPass newBase (VInt Int8 35).
Proof.
  apply (X2_int_valid_iff
    {| IntSchema.base := newBase; IntSchema.min := Some 0;
       IntSchema.max := Some 120; IntSchema.positive := false;
       IntSchema.negative := false; IntSchema.nonNegative := false;
       IntSchema.nonPositive := false; IntSchema.multipleOf := Some 5 |}
    Int8 35 []); [reflexivity | discriminate].
Defined.

(** X3.  A string is valid for a string schema exactly when it satisfies
    every constraint the schema configures (length in bytes, the e-mail
    and URL patterns, the custom pattern, membership and exclusion, prefix,
    suffix and substring), every simple refinement accepts it and no
    context-aware refinement adds an issue. *)
Theorem X3_string_valid_iff (s : StringSchema.t) (str : string) (p : path) :
  StringSchema.Validate s (VString str) p = None <->
  (forall n, StringSchema.minLength s = Some n -> n <= Text.len str) /\
  (forall n, StringSchema.maxLength s = Some n -> Text.len str <= n) /\
  (StringSchema.email s = true ->
   Regex.MatchString Regex.emailRegex str = true) /\
  (StringSchema.url s = true ->
   Regex.MatchString Regex.urlRegex str = true) /\
  (forall matchString, StringSchema.regex s = Some matchString ->
   matchString str = true) /\
  (StringSchema.oneOf s <> [] -> In str (StringSchema.oneOf s)) /\
  ~ In str (StringSchema.notOneOf s) /\
  (forall prefix, StringSchema.startsWith s = Some prefix ->
   Text.HasPrefix str prefix = true) /\
  (forall suffix, StringSchema.endsWith s = Some suffix ->
   Text.HasSuffix str suffix = true) /\
  (forall substring, StringSchema.includes s = Some substring ->
   Text.Contains str substring = true) /\
  refinementsPass (StringSchema.base s) (VString str).
Proof.
  unfold StringSchema.Validate. cbv zeta. rewrite refine_fold, refine_None.
  rewrite (quiet_start _ _ (string_constraints_quiet s str p noErrors)).
  tauto.
Qed.

(* ================================================================== *)
(** ** Numbers at the edge of their range *)
(* ================================================================== *)

Lemma ltb_nan_l (m : float) : PrimFloat.ltb nan m = false.
Proof. rewrite ltb_spec. reflexivity. Qed.

Lemma ltb_nan_r (m x : float) : Prim2SF x = S754_nan -> PrimFloat.ltb m x = false.
Proof.
  intros H. rewrite ltb_spec, H. unfold SFltb, SFcompare.
  now destruct (Prim2SF m) as [| | |].
Qed.

Lemma notMultiple_nan (m : float) : Num.notMultiple nan m = false.
Proof.
  unfold Num.notMultiple. cbv zeta.
  assert (Hdiv : Prim2SF (nan / m)%float = S754_nan).
  { rewrite div_spec. reflexivity. }
  rewrite (ltb_nan_r 0.0001%float); [reflexivity|].
  rewrite sub_spec, Hdiv. reflexivity.
Qed.

Section NotANumber.
Variable fmtFloat : float -> string.

(** X4.  NaN passes every built-in constraint of a float schema: whatever
    minimum, maximum, sign conditions and multiple-of divisor the schema
    configures, validating NaN records nothing but what the refinements
    add, because every comparison with NaN is false. *)
Theorem X4_nan_passes_every_constraint
    (s : FloatSchema.t) (k : floatKind) (p : path) :
  FloatSchema.Validate fmtFloat s (VFloat k nan) p =
  nilIfEmpty {| Errors :=
    refinementFailures (FloatSchema.base s) (VFloat k nan) p ++
    superFailures (FloatSchema.base s) (VFloat k nan) p |}.
Proof.
  unfold FloatSchema.Validate. cbv zeta. rewrite refine_fold.
  assert (Hc : forall e, FloatSchema.constraints fmtFloat s nan p e = e).
  { intros e. unfold FloatSchema.constraints. cbv zeta.
    destruct (FloatSchema.min s), (FloatSchema.max s),
      (FloatSchema.multipleOf s);
      rewrite ?notMultiple_nan, ?ltb_nan_l, ?(ltb_nan_r _ nan eq_refl);
      change (PrimFloat.leb nan 0) with false;
      change (PrimFloat.leb 0 nan) with false;
      rewrite ?andb_false_r; reflexivity. }
  rewrite Hc. now rewrite (refine_grows _ _ _ noErrors [] eq_refl).
Qed.

End NotANumber.

(** X5.  On a 64-bit platform an integer schema without refinements
    validates a [uint] above the largest int64 as the negative number its
    bits stand for as an int64: the result is that of the int64
    [n - 2^64].  A uint64 of the same magnitude is turned away by the type
    check, with the single failure [invalid_type]. *)
Theorem X5_uint_above_int64_wraps (s : IntSchema.t) (n : Z) (p : path) :
  Num.maxInt64 < n < 2 ^ 64 ->
  refinements (IntSchema.base s) = [] ->
  superRefinements (IntSchema.base s) = [] ->
  IntSchema.Validate s (VInt Uint n) p =
  IntSchema.Validate s (VInt Int64 (n - 2 ^ 64)) p /\
  IntSchema.Validate s (VInt Uint64 n) p =
  Return (Some {| Errors :=
    [failure (IntSchema.base s) p ErrCodeInvalidType
       "Expected integer, got uint64"] |}).
Proof.
  intros Hn Hr Hs. unfold IntSchema.Validate. cbv zeta.
  split; [|now destruct (Z.ltb_spec Num.maxInt64 n); [|lia]].
  assert (Hw : Num.wrap64 (n - 2 ^ 64) = Num.wrap64 n).
  { unfold Num.wrap64. f_equal.
    replace (n - 2 ^ 64 + 2 ^ 63) with (n + 2 ^ 63 + (-1) * 2 ^ 64) by lia.
    apply Z_mod_plus_full. }
  rewrite Hw.
  destruct (IntSchema.multiple _ _ _ _) as [errors|]; [|reflexivity].
  unfold applyRefinements, applySuperRefinements. now rewrite Hr, Hs.
Qed.

(** [Int().NonNegative()] on the uint [2^63]: the schema reports it as the
    negative number [-2^63]. *)
Lemma X5_witness :
  IntSchema.Validate
    {| IntSchema.base := newBase; IntSchema.min := None; IntSchema.max := None;
       IntSchema.positive := false; IntSchema.negative := false;
       IntSchema.nonNegative := true; IntSchema.nonPositive := false;
       IntSchema.multipleOf := None |}
    (VInt Uint (2 ^ 63)) [] =
  IntSchema.Validate
    {| IntSchema.base := newBase; IntSchema.min := None; IntSchema.max := None;
       IntSchema.positive := false; IntSchema.negative := false;
       IntSchema.nonNegative := true; IntSchema.nonPositive := false;
       IntSchema.multipleOf := None |}
    (VInt Int64 (2 ^ 63 - 2 ^ 64)) [] /\
  IntSchema.Validate
    {| IntSchema.base := newBase; IntSchema.min := None; IntSchema.max := None;
       IntSchema.positive := false; IntSchema.negative := false;
       IntSchema.nonNegative := true; IntSchema.nonPositive := false;
       IntSchema.multipleOf := None |}
    (VInt Uint64 (2 ^ 63)) [] =
  Return (Some {| Errors :=
    [failure newBase [] ErrCodeInvalidType "Expected integer, got uint64"] |}).
Proof.
  apply (X5_uint_above_int64_wraps
    {| IntSchema.base := newBase; IntSchema.min := None; IntSchema.max := None;
       IntSchema.positive := false; IntSchema.negative := false;
       IntSchema.nonNegative := true; IntSchema.nonPositive := false;
       IntSchema.multipleOf := None |}
    (2 ^ 63) []); [unfold Num.maxInt64; lia | reflexivity | reflexivity].
Defined.

(* ================================================================== *)
(** ** When a collection is valid *)
(* ================================================================== *)

Lemma Validate_nonempty fmtFloat s v p e :
  Validate fmtFloat s v p = Return (Some e) -> Errors e <> [].
Proof.
  assert (Hleaf : forall r, match r with
                            | None => True
                            | Some errors => Errors errors <> []
                            end -> Return r = Return (Some e) -> Errors e <> []).
  { now intros r Hr [= ->]. }
  assert (Hloop : forall r k,
            (forall errors e', k errors = Some e' -> Errors e' <> []) ->
            orPanic r k = Return (Some e) -> Errors e <> []).
  { intros r k Hk H. pose proof (orPanic_shape r k Hk) as Hshape.
    now rewrite H in Hshape. }
  destruct s as [s|s|s|s|b elementSchema minLength maxLength nonEmpty
                |b shape strict|b shape strict]; simpl.
  - apply Hleaf. destruct v; try apply onNil_shape; try apply nilIfEmpty_shape;
      simpl; discriminate.
  - intros H. pose proof (int_shape s v p) as Hshape. now rewrite H in Hshape.
  - apply Hleaf. destruct v; try apply onNil_shape; try apply nilIfEmpty_shape;
      simpl; discriminate.
  - apply Hleaf. destruct v; try apply onNil_shape; try apply nilIfEmpty_shape;
      simpl; discriminate.
  - destruct v; try (apply Hloop; apply refine_nonempty);
      apply Hleaf; try apply onNil_shape; simpl; discriminate.
  - destruct v; try (apply Hloop; intros e0 e'; apply refine_nonempty);
      apply Hleaf; try apply onNil_shape; simpl; discriminate.
  - destruct v as [| | | | | | | | |ty target|];
      try (apply Hloop; intros e0 e'; apply refine_nonempty);
      try (apply Hleaf; try apply onNil_shape; simpl; discriminate).
    destruct target as [target|]; [|apply Hleaf, onNil_shape].
    destruct target; try (apply Hloop; intros e0 e'; apply refine_nonempty);
      apply Hleaf; simpl; discriminate.
Qed.

Lemma Validate_quiet fmtFloat s v p :
  returned (Validate fmtFloat s v p) = Some [] <->
  Validate fmtFloat s v p = Return None.
Proof.
  split; [|now intros ->].
  destruct (Validate fmtFloat s v p) as [[e|]|] eqn:E; simpl;
    [|reflexivity|discriminate].
  intros [= H]. now apply Validate_nonempty in E.
Qed.

Lemma inOrder_nil calls :
  inOrder calls = Some [] <-> Forall (fun o => returned o = Some []) calls.
Proof.
  induction calls as [|o calls IH].
  - split; [constructor | reflexivity].
  - rewrite inOrder_cons, List.Forall_cons_iff, <- IH.
    destruct (returned o) as [l|]; [|split; [discriminate | now intros [? _]]].
    destruct (inOrder calls) as [rest|];
      [|split; [discriminate | now intros [_ ?]]].
    split.
    + intros [= H]. now apply app_eq_nil in H as [-> ->].
    + now intros [[= ->] [= ->]].
Qed.

Lemma elementCalls_quiet fmtFloat elementSchema p slice : forall start,
  Forall (fun o => returned o = Some [])
         (elementCalls fmtFloat elementSchema p start slice) <->
  (forall (i : nat) x, slice !! i = Some x ->
     Validate fmtFloat elementSchema x (p ++ [PInt (Z.of_nat (start + i))])
     = Return None).
Proof.
  induction slice as [|y rest IH]; intros start.
  - split; [intros _ i x H; discriminate | constructor].
  - assert (Hcalls : elementCalls fmtFloat elementSchema p start (y :: rest) =
             Validate fmtFloat elementSchema y (p ++ [PInt (Z.of_nat start)])
             :: elementCalls fmtFloat elementSchema p (S start) rest).
    { unfold elementCalls. rewrite imap_cons. f_equal.
      - do 4 f_equal. lia.
      - apply imap_ext. intros i x _. simpl. do 4 f_equal. lia. }
    rewrite Hcalls, List.Forall_cons_iff, IH, Validate_quiet. split.
    + intros [Hy Hrest] [|i] x Hx.
      * injection Hx as <-. now rewrite Nat.add_0_r.
      * replace (start + S i)%nat with (S start + i)%nat by lia.
        now apply Hrest.
    + intros H. split.
      * specialize (H 0%nat y eq_refl). now rewrite Nat.add_0_r in H.
      * intros i x Hx. specialize (H (S i) x Hx).
        now replace (start + S i)%nat with (S start + i)%nat in H by lia.
Qed.


Section Loops_inOrder.
Context {schemaT : Type}.
Variable validate : schemaT -> value -> path -> outcome.

Lemma validateShape_inOrder fieldValue p shape : forall errors,
  validateShape validate fieldValue p shape errors =
  (fun l => {| Errors := Errors errors ++ l |}) <$>
    inOrder (map (fun field : string * schemaT =>
                    validate (snd field) (fieldValue (fst field))
                      (p ++ [PStr (fst field)])) shape).
Proof.
  induction shape as [|[name schema] rest IH]; intros errors.
  - simpl. now rewrite app_nil_r, Errors_eta.
  - cbn [map fst snd validateShape]. rewrite inOrder_cons.
    unfold PathAppend at 1.
    destruct (validate schema (fieldValue name) (p ++ [PStr name]))
      as [r|] eqn:E; [|reflexivity].
    rewrite IH.
    destruct (returned (Return r)) as [l|] eqn:Hr; [|now destruct r].
    rewrite (Errors_appendErrors errors r l Hr).
    destruct (inOrder _) as [more|]; simpl; [|reflexivity].
    now rewrite <- app_assoc.
Qed.

End Loops_inOrder.

Section Collections.
Variable fmtFloat : float -> string.

(** X6.  A slice or an array is valid for an array schema exactly when its
    length satisfies the configured conditions (non-empty, minimum,
    maximum), every element is valid for the element schema at the path
    extended by its index, every simple refinement accepts the collection
    and no context-aware refinement adds an issue. *)
Theorem X6_array_valid_iff
    (b : BaseSchema) (elementSchema : Schema) (minLength maxLength : option Z)
    (nonEmpty : bool) (slice : list value) (p : path) (v : value) :
  (exists ty, v = VSlice ty slice) \/ (exists ty z, v = VArray ty z slice) ->
  Validate fmtFloat (OfArray b elementSchema minLength maxLength nonEmpty) v p
  = Return None <->
  (nonEmpty = true -> Z.of_nat (length slice) <> 0) /\
  (forall m, minLength = Some m -> m <= Z.of_nat (length slice)) /\
  (forall m, maxLength = Some m -> Z.of_nat (length slice) <= m) /\
  (forall (i : nat) x, slice !! i = Some x ->
     Validate fmtFloat elementSchema x (p ++ [PInt (Z.of_nat i)]) = Return None) /\
  refinementsPass b v.
Proof.
  intros Hv.
  assert (Hloop :
    orPanic (validateElements (Validate fmtFloat) elementSchema p 0 slice
               (arrayLengths b minLength maxLength nonEmpty
                  (Z.of_nat (length slice)) p noErrors))
            (refine b v p) = Return None <->
    (nonEmpty = true -> Z.of_nat (length slice) <> 0) /\
    (forall m, minLength = Some m -> m <= Z.of_nat (length slice)) /\
    (forall m, maxLength = Some m -> Z.of_nat (length slice) <= m) /\
    (forall (i : nat) x, slice !! i = Some x ->
       Validate fmtFloat elementSchema x (p ++ [PInt (Z.of_nat i)]) = Return None) /\
    refinementsPass b v).
  { change 0 with (Z.of_nat 0). rewrite validateElements_inOrder.
    pose proof (quiet_start _ _
      (array_lengths_quiet b minLength maxLength nonEmpty
         (Z.of_nat (length slice)) p noErrors)) as Hlengths.
    pose proof (elementCalls_quiet fmtFloat elementSchema p slice 0) as Helems.
    rewrite <- inOrder_nil in Helems. simpl in Helems.
    destruct (inOrder _) as [l|]; simpl.
    - split.
      + intros [= H]. apply refine_None in H as [H ?]. simpl in H.
        apply app_eq_nil in H as [H ->]. apply Hlengths in H.
        pose proof (proj1 Helems eq_refl). tauto.
      + intros (H1 & H2 & H3 & H4 & H5). f_equal. apply refine_None.
        split; [|exact H5]. simpl. apply Helems in H4 as [= ->].
        rewrite app_nil_r. apply Hlengths. tauto.
    - split; [discriminate|]. intros (_ & _ & _ & H & _).
      now apply Helems in H. }
  destruct Hv as [[ty ->] | (ty & z & ->)]; exact Hloop.
Qed.


End Collections.

(** [Array(Int())] on [[1, 2]]: the hypothesis of X6 holds. *)
Lemma X6_witness :
  Validate fmtFloatB (Array (OfInt IntSchema.Int_))
    (VSlice "[]int" [VInt Int 1; VInt Int 2]) [] = Return None <->
  (false = true -> Z.of_nat (length [VInt Int 1; VInt Int 2]) <> 0) /\
  (forall m, None = Some m -> m <= Z.of_nat (length [VInt Int 1; VInt Int 2])) /\
  (forall m, None = Some m -> Z.of_nat (length [VInt Int 1; VInt Int 2]) <= m) /\
  (forall (i : nat) x, [VInt Int 1; VInt Int 2] !! i = Some x ->
     Validate fmtFloatB (OfInt IntSchema.Int_) x ([] ++ [PInt (Z.of_nat i)])
     = Return None) /\
  refinementsPass newBase (VSlice "[]int" [VInt Int 1; VInt Int 2]).
Proof.
  apply (X6_array_valid_iff fmtFloatB newBase (OfInt IntSchema.Int_)
           None None false [VInt Int 1; VInt Int 2] []).
  left. exists "[]int". reflexivity.
Defined.

Section Structs.
Variable fmtFloat : float -> string.


End Structs.


(* ================================================================== *)
(** ** The methods that configure a schema *)
(* ================================================================== *)

Lemma refine_silent b f g v p e :
  fst (f v) = true -> g v = [] ->
  refine (addSuperRefinement (addRefinement b f) g) v p e = refine b v p e.
Proof.
  intros Hf Hg.
  rewrite (refine_grows _ v p e (Errors e) eq_refl).
  rewrite (refine_grows b v p e (Errors e) eq_refl).
  do 4 f_equal.
  - unfold refinementFailures. cbn [refinements addSuperRefinement addRefinement].
    rewrite flat_map_app. cbn [flat_map].
    destruct (f v) as [valid message]. simpl in Hf. subst valid.
    now rewrite !app_nil_r.
  - unfold superFailures. cbn [superRefinements addSuperRefinement addRefinement].
    rewrite flat_map_app. cbn [flat_map]. rewrite Hg. simpl.
    now rewrite app_nil_r.
Qed.

Lemma orPanic_ext r k k' :
  (forall errors, k errors = k' errors) -> orPanic r k = orPanic r k'.
Proof. intros H. destruct r as [errors|]; simpl; [now rewrite H | reflexivity]. Qed.

Section BaseExt.
Variable f : BaseSchema -> BaseSchema.
Hypothesis Hmsg : forall b q code text,
  getErrorMessage (f b) q code text = getErrorMessage b q code text.

Lemma report_ext b e p code text :
  report (f b) e p code text = report b e p code text.
Proof. unfold report. now rewrite Hmsg. Qed.

Lemma reportIf_ext cond b e p code text :
  reportIf cond (f b) e p code text = reportIf cond b e p code text.
Proof. unfold reportIf. now rewrite report_ext. Qed.

(** One constraint of a chain, on both sides. *)
Ltac ext_stage :=
  repeat match goal with
         | |- context [match ?o with _ => _ end] => destruct o
         end;
  cbv zeta; rewrite ?reportIf_ext, ?Hmsg; reflexivity.

(** Follows two chains of [let errors := ... in ...] side by side. *)
Ltac ext_chain :=
  repeat lazymatch goal with
  | |- (let x := ?X in @?F x) = (let y := ?Y in @?G y) =>
      lazymatch type of X with
      | ValidationErrors =>
          let H := fresh "H" in
          assert (H : X = Y) by ext_stage;
          rewrite H; clear H;
          let e' := fresh "errors" in
          generalize Y; intros e';
          let t := eval cbv beta in (F e') in
          let u := eval cbv beta in (G e') in
          change (t = u)
      | _ =>
          let t := eval cbv beta in (F X) in
          let u := eval cbv beta in (G Y) in
          change (t = u)
      end
  end;
  ext_stage.

Lemma string_constraints_ext s str p e :
  StringSchema.constraints (StringBuild.withBase f s) str p e =
  StringSchema.constraints s str p e.
Proof.
  cbv beta delta [StringSchema.constraints]. unfold StringBuild.withBase.
  cbn [StringSchema.base StringSchema.minLength StringSchema.maxLength
       StringSchema.email StringSchema.url StringSchema.regex
       StringSchema.regexMessage StringSchema.oneOf StringSchema.notOneOf
       StringSchema.startsWith StringSchema.endsWith StringSchema.includes].
  ext_chain.
Qed.

Lemma int_bounds_ext s b' num p e :
  IntSchema.bounds
    {| IntSchema.base := f (IntSchema.base s); IntSchema.min := IntSchema.min s;
       IntSchema.max := IntSchema.max s; IntSchema.positive := IntSchema.positive s;
       IntSchema.negative := IntSchema.negative s;
       IntSchema.nonNegative := IntSchema.nonNegative s;
       IntSchema.nonPositive := IntSchema.nonPositive s;
       IntSchema.multipleOf := b' |} num p e =
  IntSchema.bounds s num p e.
Proof.
  cbv beta delta [IntSchema.bounds].
  cbn [IntSchema.base IntSchema.min IntSchema.max IntSchema.positive
       IntSchema.negative IntSchema.nonNegative IntSchema.nonPositive].
  ext_chain.
Qed.

Lemma int_multiple_ext s num p e :
  IntSchema.multiple
    {| IntSchema.base := f (IntSchema.base s); IntSchema.min := IntSchema.min s;
       IntSchema.max := IntSchema.max s; IntSchema.positive := IntSchema.positive s;
       IntSchema.negative := IntSchema.negative s;
       IntSchema.nonNegative := IntSchema.nonNegative s;
       IntSchema.nonPositive := IntSchema.nonPositive s;
       IntSchema.multipleOf := IntSchema.multipleOf s |} num p e =
  IntSchema.multiple s num p e.
Proof.
  unfold IntSchema.multiple. cbn [IntSchema.base IntSchema.multipleOf].
  destruct (IntSchema.multipleOf s) as [m|]; [|reflexivity].
  destruct (m =? 0); [reflexivity|]. now rewrite reportIf_ext.
Qed.

Lemma float_constraints_ext fmtFloat s num p e :
  FloatSchema.constraints fmtFloat
    {| FloatSchema.base := f (FloatSchema.base s);
       FloatSchema.min := FloatSchema.min s; FloatSchema.max := FloatSchema.max s;
       FloatSchema.positive := FloatSchema.positive s;
       FloatSchema.negative := FloatSchema.negative s;
       FloatSchema.nonNegative := FloatSchema.nonNegative s;
       FloatSchema.nonPositive := FloatSchema.nonPositive s;
       FloatSchema.multipleOf := FloatSchema.multipleOf s |} num p e =
  FloatSchema.constraints fmtFloat s num p e.
Proof.
  cbv beta delta [FloatSchema.constraints].
  cbn [FloatSchema.base FloatSchema.min FloatSchema.max FloatSchema.positive
       FloatSchema.negative FloatSchema.nonNegative FloatSchema.nonPositive
       FloatSchema.multipleOf].
  ext_chain.
Qed.

Lemma arrayLengths_ext b minLength maxLength nonEmpty n p e :
  arrayLengths (f b) minLength maxLength nonEmpty n p e =
  arrayLengths b minLength maxLength nonEmpty n p e.
Proof. cbv beta delta [arrayLengths]. ext_chain. Qed.

Lemma unknownKeys_ext {A} b (shape : list (string * A)) p what keys : forall e,
  fold_left (unknownKey (f b) shape p what) keys e =
  fold_left (unknownKey b shape p what) keys e.
Proof.
  induction keys as [|key keys IH]; intros e; simpl; [reflexivity|].
  rewrite IH. unfold unknownKey. now rewrite report_ext.
Qed.

(** A method that changes the base without changing the messages it
    resolves changes a result only through the refinements and the answer
    on an absent value. *)
Lemma Validate_mapBase_ext fmtFloat s v p :
  (forall e, refine (f (baseOf s)) v p e = refine (baseOf s) v p e) ->
  (absent s v = true -> onNil (f (baseOf s)) p = onNil (baseOf s) p) ->
  Validate fmtFloat (mapBase f s) v p = Validate fmtFloat s v p.
Proof.
  intros Hrefine Hnil.
  destruct s as [s|s|s|s|b elementSchema minLength maxLength nonEmpty
                |b shape strict|b shape strict];
    cbn [mapBase Validate baseOf] in *.
  - unfold StringSchema.Validate.
    change (StringSchema.base (StringBuild.withBase f s))
      with (f (StringSchema.base s)).
    destruct v; rewrite ?report_ext; try reflexivity.
    + now rewrite Hnil.
    + cbv zeta. rewrite string_constraints_ext, !refine_fold. now rewrite Hrefine.
  - unfold IntSchema.Validate. cbn [IntSchema.base].
    destruct v; rewrite ?report_ext; try reflexivity.
    + now rewrite Hnil.
    + destruct (match k with Uint64 => Num.maxInt64 <? n | _ => false end);
        [reflexivity|].
      cbv zeta. rewrite int_bounds_ext, int_multiple_ext.
      destruct (IntSchema.multiple _ _ _ _) as [errors|]; [|reflexivity].
      rewrite !refine_fold. now rewrite Hrefine.
  - unfold FloatSchema.Validate. cbn [FloatSchema.base].
    destruct v; rewrite ?report_ext; try reflexivity.
    + now rewrite Hnil.
    + cbv zeta. rewrite float_constraints_ext, !refine_fold. now rewrite Hrefine.
  - unfold BoolSchema.Validate. cbn [BoolSchema.base].
    destruct v; rewrite ?report_ext; try reflexivity.
    + now rewrite Hnil.
    + cbv zeta. rewrite !refine_fold. now rewrite Hrefine.
  - destruct v; rewrite ?report_ext; try reflexivity.
    + now rewrite Hnil.
    + rewrite arrayLengths_ext. apply orPanic_ext, Hrefine.
    + rewrite arrayLengths_ext. apply orPanic_ext, Hrefine.
  - destruct v; rewrite ?report_ext; try reflexivity.
    + now rewrite Hnil.
    + apply orPanic_ext. intros errors.
      rewrite Hrefine. now destruct strict; rewrite ?unknownKeys_ext.
  - assert (Hloop : forall members,
      orPanic
        (validateShape (Validate fmtFloat)
           (structFieldValue (buildFieldMap members)) p shape noErrors)
        (fun errors =>
           refine (f b) v p
             (if strict
              then fold_left (unknownKey (f b) shape p "field")
                     (map getStructFieldName
                        (List.filter IsExported (map fst members))) errors
              else errors)) =
      orPanic
        (validateShape (Validate fmtFloat)
           (structFieldValue (buildFieldMap members)) p shape noErrors)
        (fun errors =>
           refine b v p
             (if strict
              then fold_left (unknownKey b shape p "field")
                     (map getStructFieldName
                        (List.filter IsExported (map fst members))) errors
              else errors))).
    { intros members. apply orPanic_ext. intros errors.
      rewrite Hrefine. now destruct strict; rewrite ?unknownKeys_ext. }
    destruct v as [| | | | | | | | |ty target|]; rewrite ?report_ext;
      try reflexivity; try apply Hloop.
    + now rewrite Hnil.
    + destruct target as [target|]; [|now rewrite Hnil].
      destruct target; rewrite ?report_ext; try reflexivity; apply Hloop.
Qed.

End BaseExt.

Section Builders.
Variable fmtFloat : float -> string.

(** X9.  [Nilable()] changes the answer on nil only: on every value that
    is neither nil nor a nil pointer, the schema returns what it returned
    before the call. *)
Theorem X9_nilable_only_changes_nil (s : Schema) (v : value) (p : path) :
  v <> VNil -> (forall ty, v <> VPtr ty None) ->
  Validate fmtFloat (Nilable s) v p = Validate fmtFloat s v p.
Proof.
  intros Hnil Hptr. apply Validate_mapBase_ext; [reflexivity..|].
  intros Habsent. exfalso.
  destruct v as [| | | | | | | | |ty [target|]|]; try discriminate.
  - now apply Hnil.
  - now apply (Hptr ty).
Qed.

(** X10.  Refinements that have nothing to say about a value do not change
    its result: after [Refine(f)] and [SuperRefine(g)], a value that [f]
    accepts and for which [g] adds no issue gets the result the schema gave
    before, whatever the schema, and also when it is nil or of the wrong
    type. *)
Theorem X10_silent_refinements_change_nothing
    (s : Schema) (f : RefineFunc) (g : SuperRefineFunc) (v : value) (p : path) :
  fst (f v) = true -> g v = [] ->
  Validate fmtFloat (SuperRefine g (Refine f s)) v p = Validate fmtFloat s v p.
Proof.
  intros Hf Hg.
  assert (Hboth : SuperRefine g (Refine f s) =
                  mapBase (fun b => addSuperRefinement (addRefinement b f) g) s)
    by now destruct s.
  rewrite Hboth.
  apply (Validate_mapBase_ext
           (fun b => addSuperRefinement (addRefinement b f) g));
    [reflexivity| |reflexivity].
  intros e. now apply refine_silent.
Qed.

End Builders.

(** [String().Min(5).Nilable()] on ["hi"]: neither nil nor a nil pointer. *)
Lemma X9_witness :
  Validate fmtFloatB
    (Nilable (OfString (StringBuild.Min 5 StringSchema.String_)))
    (VString "hi") [] =
  Validate fmtFloatB (OfString (StringBuild.Min 5 StringSchema.String_))
    (VString "hi") [].
Proof.
  apply (X9_nilable_only_changes_nil fmtFloatB
           (OfString (StringBuild.Min 5 StringSchema.String_)) (VString "hi") []);
    [discriminate | intros ty; discriminate].
Defined.

(** [String().Min(5)] with a refinement that accepts every string and a
    context-aware refinement that reports duplicates, on ["hi"]. *)
Lemma X10_witness :
  Validate fmtFloatB
    (SuperRefine noDuplicates
       (Refine (fun _ => (true, ""))
          (OfString (StringBuild.Min 5 StringSchema.String_))))
    (VString "hi") [] =
  Validate fmtFloatB (OfString (StringBuild.Min 5 StringSchema.String_))
    (VString "hi") [].
Proof.
  apply (X10_silent_refinements_change_nothing fmtFloatB
           (OfString (StringBuild.Min 5 StringSchema.String_))
           (fun _ => (true, "")) noDuplicates (VString "hi") []);
    reflexivity.
Defined.

Lemma baseOf_mapBase f s : baseOf (mapBase f s) = f (baseOf s).
Proof. now destruct s. Qed.

(** X11.  [CustomError(code, message)] overrides the default text of that
    code and of no other: on a schema without a formatter, every message
    resolved for [code] is [message]; the message resolved for any other
    code is what it was before the call; and a second call for the same
    code replaces the first. *)
Theorem X11_custom_error_overrides_its_code
    (s : Schema) (code message : string) (p : path) (text : string) :
  errorFormatter (baseOf s) = None ->
  getErrorMessage (baseOf (CustomError code message s)) p code text = message /\
  (forall other, other <> code ->
     getErrorMessage (baseOf (CustomError code message s)) p other text =
     getErrorMessage (baseOf s) p other text) /\
  (forall earlier,
     CustomError code message (CustomError code earlier s) =
     CustomError code message s).
Proof.
  intros Hformatter. unfold CustomError. rewrite baseOf_mapBase.
  unfold getErrorMessage. cbn [errorFormatter customErrors setCustomError].
  rewrite Hformatter. split; [|split].
  - now rewrite lookup_insert_eq.
  - intros other Hother. now rewrite lookup_insert_ne.
  - intros earlier.
    destruct s; unfold mapBase, StringBuild.withBase, setCustomError; simpl;
      now rewrite insert_insert_eq.
Qed.

(** [String().CustomError("too_small", "Too short")] has no formatter. *)
Lemma X11_witness :
  getErrorMessage
    (baseOf (CustomError ErrCodeTooSmall "Too short"
               (OfString StringSchema.String_)))
    [] ErrCodeTooSmall "String must be at least 5 character(s) long, got 2"
  = "Too short" /\
  (forall other, other <> ErrCodeTooSmall ->
     getErrorMessage
       (baseOf (CustomError ErrCodeTooSmall "Too short"
                  (OfString StringSchema.String_)))
       [] other "String must be at least 5 character(s) long, got 2" =
     getErrorMessage (baseOf (OfString StringSchema.String_)) [] other
       "String must be at least 5 character(s) long, got 2") /\
  (forall earlier,
     CustomError ErrCodeTooSmall "Too short"
       (CustomError ErrCodeTooSmall earlier (OfString StringSchema.String_)) =
     CustomError ErrCodeTooSmall "Too short" (OfString StringSchema.String_)).
Proof.
  apply (X11_custom_error_overrides_its_code (OfString StringSchema.String_)
           ErrCodeTooSmall "Too short" []
           "String must be at least 5 character(s) long, got 2").
  reflexivity.
Defined.

(* ================================================================== *)
(** ** More on paths and on the failure collection *)
(* ================================================================== *)

(** X12.  Appending a part to a path appends its rendering: a name is
    joined with a dot, a bracketed part (an index, or a name that begins
    with a bracket) without one, and the first part stands alone. *)
Theorem X12_rendering_follows_PathAppend (p : path) (part : pathPart) :
  PathToString (PathAppend p part) =
  match p with
  | [] => renderPart part
  | _ :: _ =>
      PathToString p +:+
      (if Text.HasPrefix (renderPart part) "[" then "" else ".") +:+
      renderPart part
  end.
Proof.
  destruct p as [|first rest]; [reflexivity|].
  unfold PathAppend. rewrite <- app_comm_cons, !PathToString_cons.
  rewrite map_app, joined_app, append_assoc. cbn [map joined].
  rewrite append_empty_r. now destruct (Text.HasPrefix (renderPart part) "[").
Qed.

Lemma partEqual_spec (part1 part2 : pathPart) :
  nameOrIndex part2 -> partEqual part1 part2 = Some (bool_decide (part1 = part2)).
Proof.
  intros H2. destruct part1 as [s1|n1|n1|t1], part2 as [s2|n2|n2|t2];
    try (exfalso; exact H2); simpl; f_equal;
    try (destruct (String.eqb_spec s1 s2));
    try (destruct (Z.eqb_spec n1 n2));
    case_bool_decide; congruence.
Qed.

Lemma partsEqual_spec (path2 : path) : forall path1,
  length path1 = length path2 -> Forall nameOrIndex path2 ->
  partsEqual path1 path2 = Some (bool_decide (path1 = path2)).
Proof.
  induction path2 as [|part2 rest2 IH]; intros [|part1 rest1] Hlen Hparts;
    try discriminate.
  - reflexivity.
  - apply List.Forall_cons_iff in Hparts as [Hpart Hrest].
    cbn [partsEqual]. rewrite (partEqual_spec part1 part2 Hpart).
    case_bool_decide as Hhead.
    + rewrite IH by (simpl in Hlen; congruence || assumption). f_equal.
      subst part2. repeat case_bool_decide; congruence.
    + f_equal. case_bool_decide; congruence.
Qed.

Lemma PathEqual_spec (path1 path2 : path) :
  Forall nameOrIndex path2 ->
  PathEqual path1 path2 = Some (bool_decide (path1 = path2)).
Proof.
  intros Hparts. unfold PathEqual.
  destruct (Nat.eqb_spec (length path1) (length path2)) as [Hlen|Hlen]; simpl.
  - now apply partsEqual_spec.
  - f_equal. case_bool_decide; congruence.
Qed.

(** X13.  For a path of names and indices, [GetErrorsByPath] returns the
    failures whose path has the same parts, in the order of the collection.
    Parts are compared with their types: the int index [n] and the int64
    index [n] are different parts although both render as [[n]]. *)
Theorem X13_errors_by_path (e : ValidationErrors) (p : path) :
  Forall nameOrIndex p ->
  GetErrorsByPath e p = Some (filter (fun err => Path err = p) (Errors e)) /\
  (forall n, PathEqual [PInt n] [PInt64 n] = Some false /\
             PathToString [PInt n] = PathToString [PInt64 n]).
Proof.
  intros Hp. split; [|now intros n].
  unfold GetErrorsByPath.
  assert (Hfold : forall errors found,
    fold_left
      (fun result err =>
         match result, PathEqual (Path err) p with
         | Some result, Some true => Some (result ++ [err])
         | Some result, Some false => Some result
         | _, _ => None
         end) errors (Some found) =
    Some (found ++ filter (fun err => Path err = p) errors)).
  { induction errors as [|err errors IH]; intros found; simpl.
    - now rewrite app_nil_r.
    - rewrite (PathEqual_spec (Path err) p Hp), filter_cons.
      case_bool_decide as Heq.
      + rewrite decide_True by assumption.
        rewrite IH. now rewrite <- app_assoc.
      + rewrite decide_False by assumption. apply IH. }
  apply (Hfold (Errors e) []).
Qed.

(** The failures at [tags[0]] among three. *)
Lemma X13_witness :
  GetErrorsByPath
    {| Errors :=
         [ {| Path := [PStr "tags"; PInt 0]; Message := "first";
              Code := ErrCodeTooSmall; Meta := None |};
           {| Path := [PStr "name"]; Message := "second";
              Code := ErrCodeRequired; Meta := None |};
           {| Path := [PStr "tags"; PInt 0]; Message := "third";
              Code := ErrCodeInvalidString; Meta := None |} ] |}
    [PStr "tags"; PInt 0] =
  Some (filter (fun err => Path err = [PStr "tags"; PInt 0])
          [ {| Path := [PStr "tags"; PInt 0]; Message := "first";
               Code := ErrCodeTooSmall; Meta := None |};
            {| Path := [PStr "name"]; Message := "second";
               Code := ErrCodeRequired; Meta := None |};
            {| Path := [PStr "tags"; PInt 0]; Message := "third";
               Code := ErrCodeInvalidString; Meta := None |} ]) /\
  (forall n, PathEqual [PInt n] [PInt64 n] = Some false /\
             PathToString [PInt n] = PathToString [PInt64 n]).
Proof.
  apply (X13_errors_by_path
    {| Errors :=
         [ {| Path := [PStr "tags"; PInt 0]; Message := "first";
              Code := ErrCodeTooSmall; Meta := None |};
           {| Path := [PStr "name"]; Message := "second";
              Code := ErrCodeRequired; Meta := None |};
           {| Path := [PStr "tags"; PInt 0]; Message := "third";
              Code := ErrCodeInvalidString; Meta := None |} ] |}
    [PStr "tags"; PInt 0]).
  repeat constructor.
Defined.

Lemma appendField_count key msg r :
  messageCount (appendField key msg r) = S (messageCount r).
Proof.
  unfold messageCount, appendField. cbn [FormErrors FieldErrors].
  rewrite <- Nat.add_succ_r. f_equal.
  assert (Hcomm : forall (z1 z2 : list string) (y : nat),
            (length z1 + (length z2 + y) = length z2 + (length z1 + y))%nat)
    by (intros; lia).
  destruct (FieldErrors r !! key) as [old|] eqn:Hkey; cbn [default].
  - rewrite <- insert_delete_eq.
    rewrite map_fold_insert_L;
      [|intros; apply Hcomm | apply lookup_delete_eq].
    rewrite (map_fold_delete_L _ _ key old (FieldErrors r));
      [|intros; apply Hcomm | exact Hkey].
    rewrite length_app. simpl. lia.
  - rewrite map_fold_insert_L; [|intros; apply Hcomm | exact Hkey].
    reflexivity.
Qed.

Lemma flattenStep_count r err :
  messageCount (flattenStep r err) = S (messageCount r).
Proof.
  unfold flattenStep. cbv zeta.
  destruct (String.eqb (PathToString (Path err)) "").
  - unfold messageCount. cbn [FormErrors FieldErrors]. rewrite length_app.
    simpl. lia.
  - destruct (Regex.FindIndex _ _); apply appendField_count.
Qed.

(** X14.  [Flatten] loses no failure and invents none: the messages of the
    form errors and of all the groups of field errors are together as many
    as the failures of the collection. *)
Theorem X14_flatten_keeps_every_message (e : ValidationErrors) :
  messageCount (Flatten e) = length (Errors e).
Proof.
  unfold Flatten.
  assert (Hfold : forall errors r,
            messageCount (fold_left flattenStep errors r) =
            (messageCount r + length errors)%nat).
  { induction errors as [|err errors IH]; intros r; simpl; [lia|].
    rewrite IH, flattenStep_count. lia. }
  rewrite Hfold. unfold messageCount. cbn [FormErrors FieldErrors].
  now rewrite map_fold_empty.
Qed.

(* ================================================================== *)
(** ** The members of a struct *)
(* ================================================================== *)

Lemma append_cons (c : ascii) (s1 s2 : string) :
  String c s1 +:+ s2 = String c (s1 +:+ s2).
Proof. reflexivity. Qed.

Lemma append_empty_l (s : string) : "" +:+ s = s.
Proof. reflexivity. Qed.

Lemma Index_comma (name options : string) :
  Forall (fun c => c <> ","%char) (bytes name) ->
  Text.Index (name +:+ "," +:+ options) "," = Some (String.length name).
Proof.
  unfold Text.Index. induction name as [|c name IH]; intros Hname.
  - rewrite append_empty_l, append_cons, append_empty_l.
    cbn [String.index String.prefix String.length].
    destruct (ascii_dec "," ",") as [_|Hne]; [now destruct options|].
    now destruct Hne.
  - apply List.Forall_cons_iff in Hname as [Hc Hname].
    rewrite append_cons. cbn [String.index String.prefix String.length].
    destruct (ascii_dec "," c) as [Heq|_]; [now subst c|].
    now rewrite (IH Hname).
Qed.

Lemma tag_with_comma (name options : string) :
  negb (String.eqb (name +:+ "," +:+ options) "") &&
  negb (String.eqb (name +:+ "," +:+ options) "-") = true.
Proof.
  destruct name as [|c [|c' name]];
    rewrite ?append_cons, ?append_empty_l, ?append_cons; cbn [String.eqb negb].
  - reflexivity.
  - now destruct (Ascii.eqb c "-").
  - now destruct (Ascii.eqb c "-").
Qed.

(** X15.  The name a struct member is validated under is the text of its
    [json] tag before the first comma, whenever the tag has a comma: the
    options after it ([omitempty] and the like) are not part of the name,
    and a tag that begins with the comma gives the empty name. *)
Theorem X15_name_is_the_tag_before_the_comma
    (field : StructField) (name options : string) :
  JsonTag field = name +:+ "," +:+ options ->
  Forall (fun c => c <> ","%char) (bytes name) ->
  getStructFieldName field = name.
Proof.
  intros Htag Hname. unfold getStructFieldName. cbv zeta.
  rewrite Htag, tag_with_comma, (Index_comma name options Hname).
  apply take_append.
Qed.

(** The member [Nick string `json:"nick,omitempty"`]. *)
Lemma X15_witness :
  getStructFieldName (member "Nick" "nick,omitempty" false) = "nick".
Proof.
  apply (X15_name_is_the_tag_before_the_comma
           (member "Nick" "nick,omitempty" false) "nick" "omitempty").
  - reflexivity.
  - repeat constructor; discriminate.
Defined.

Lemma buildFieldMap_unexported before field x after :
  IsExported field = false ->
  buildFieldMap (before ++ (field, x) :: after) = buildFieldMap (before ++ after).
Proof.
  intros H. unfold buildFieldMap. rewrite !fold_left_app. cbn [fold_left fst].
  now rewrite H.
Qed.

Section Unexported.
Variable fmtFloat : float -> string.

(** X16.  A struct schema without refinements never looks at an unexported
    member: the result for a struct is the result for the same struct
    without that member, in strict mode too. *)
Theorem X16_unexported_members_are_ignored
    (b : BaseSchema) (shape : list (string * Schema)) (strict : bool)
    (ty : string) (z : bool) (before after : list (StructField * value))
    (field : StructField) (x : value) (p : path) :
  IsExported field = false ->
  refinements b = [] -> superRefinements b = [] ->
  Validate fmtFloat (OfStruct b shape strict)
    (VStruct ty z (before ++ (field, x) :: after)) p =
  Validate fmtFloat (OfStruct b shape strict)
    (VStruct ty z (before ++ after)) p.
Proof.
  intros Hfield Hr Hs. cbn [Validate].
  rewrite (buildFieldMap_unexported before field x after Hfield).
  apply orPanic_ext. intros errors.
  rewrite !map_app, !List.filter_app. cbn [map fst List.filter].
  rewrite Hfield. now apply refine_plain.
Qed.

End Unexported.

(** [User{Name: "Ada"}] with an unexported member [secret] after [Name]. *)
Lemma X16_witness :
  Validate fmtFloatB (OfStruct newBase [("name", OfString StringSchema.String_)] true)
    (VStruct "gozod.User" false
       ([(member "Name" "name" false, VString "Ada")] ++
        ({| Name := "secret"; PkgPath := "gozod"; JsonTag := "";
            IsPtr := false |}, VInt Int 7) :: [])) [] =
  Validate fmtFloatB (OfStruct newBase [("name", OfString StringSchema.String_)] true)
    (VStruct "gozod.User" false
       ([(member "Name" "name" false, VString "Ada")] ++ [])) [].
Proof.
  apply (X16_unexported_members_are_ignored fmtFloatB newBase
           [("name", OfString StringSchema.String_)] true "gozod.User" false
           [(member "Name" "name" false, VString "Ada")] []
           {| Name := "secret"; PkgPath := "gozod"; JsonTag := "";
              IsPtr := false |} (VInt Int 7) []);
    reflexivity.
Defined.

Lemma buildFieldMap_keeps name entry after :
  forall fieldMap : gmap string (StructField * value),
  fieldMap !! name = Some entry ->
  Forall (fun m : StructField * value =>
            IsExported (fst m) = true -> getStructFieldName (fst m) <> name)
         after ->
  fold_left
    (fun fieldMap fv =>
       if IsExported (fst fv)
       then <[ getStructFieldName (fst fv) := fv ]> fieldMap
       else fieldMap)
    after fieldMap !! name = Some entry.
Proof.
  induction after as [|m after IH]; intros fieldMap Hentry Hafter; simpl;
    [exact Hentry|].
  apply List.Forall_cons_iff in Hafter as [Hm Hafter].
  apply IH; [|exact Hafter].
  destruct (IsExported (fst m)); [|exact Hentry].
  rewrite lookup_insert_ne; [exact Hentry | now apply Hm].
Qed.

(* ================================================================== *)
(** ** Panics and values of the wrong kind *)
(* ================================================================== *)

(** X18.  An integer schema panics on exactly one kind of input: the
    multiple-of divisor is zero and the value is an integer that passes the
    type check.  On every other input it returns. *)
Theorem X18_int_panics_iff_divisor_zero
    (s : IntSchema.t) (v : value) (p : path) :
  IntSchema.Validate s v p = Panic <->
  IntSchema.multipleOf s = Some 0 /\
  exists k n, v = VInt k n /\ passesTypeCheck (OfInt s) v = true.
Proof.
  unfold IntSchema.Validate.
  destruct v as [| |k n| | | | | | | |];
    try (split; [discriminate | now intros (_ & k' & n' & [=] & _)]).
  cbn [passesTypeCheck].
  assert (Hc : match k with Uint64 => negb (Num.maxInt64 <? n) | _ => true end =
               negb match k with Uint64 => Num.maxInt64 <? n | _ => false end)
    by now destruct k.
  destruct (match k with Uint64 => Num.maxInt64 <? n | _ => false end) eqn:E.
  - split; [discriminate|]. intros (_ & k' & n' & [= <- <-] & H).
    rewrite Hc in H. discriminate.
  - cbv zeta. unfold IntSchema.multiple.
    destruct (IntSchema.multipleOf s) as [m|].
    + destruct (Z.eqb_spec m 0) as [->|Hm].
      * split; [|reflexivity]. intros _. split; [reflexivity|].
        exists k, n. split; [reflexivity | now rewrite Hc].
      * split; [discriminate|]. intros ([= ->] & _). now destruct Hm.
    + split; [discriminate | now intros [? _]].
Qed.

Section Kinds.
Variable fmtFloat : float -> string.

(** X20.  A composite schema given a value that is not absent and not of
    the kind it takes (a slice or an array for an array schema, a map for a
    map schema, a struct or a pointer to one for a struct schema) returns
    one failure, of code [invalid_type], at the path it was called with:
    no element, field or refinement is looked at. *)
Theorem X20_composite_kind_mismatch (s : Schema) (v : value) (p : path) :
  declaredKind s = None -> absent s v = false -> takes s v = false ->
  Validate fmtFloat s v p =
  Return (Some {| Errors :=
    [failure (baseOf s) p ErrCodeInvalidType
       ("Expected " +:+ expected s +:+ ", got " +:+ typeName v)] |}).
Proof.
  intros Hcomposite Habsent Htakes.
  destruct s; try discriminate;
    destruct v as [| | | | | | | | |pty target|]; try discriminate;
    try reflexivity;
    destruct target as [target|]; try discriminate;
    destruct target; try discriminate; reflexivity.
Qed.

End Kinds.

(** [Array(Int())] on the string ["x"]. *)
Lemma X20_witness :
  Validate fmtFloatB (Array (OfInt IntSchema.Int_)) (VString "x") [] =
  Return (Some {| Errors :=
    [failure (baseOf (Array (OfInt IntSchema.Int_))) [] ErrCodeInvalidType
       ("Expected " +:+ expected (Array (OfInt IntSchema.Int_)) +:+ ", got " +:+
        typeName (VString "x"))] |}).
Proof.
  apply (X20_composite_kind_mismatch fmtFloatB (Array (OfInt IntSchema.Int_))
           (VString "x") []); reflexivity.
Defined.

(* ================================================================== *)
(** ** The e-mail pattern *)
(* ================================================================== *)

Section Alphabet.
Context {sym : Type}.
Implicit Types r : Regex.re sym.

Lemma void_fullMatch input : forall r,
  void r = true -> Regex.fullMatch r input = false.
Proof.
  assert (Hnull : forall r, void r = true -> Regex.nullable r = false).
  { induction r as [| |cls|r1 IH1 r2 IH2|r1 IH1 r2 IH2|r1 IH1]; simpl;
      try discriminate; try reflexivity.
    - intros [H|H]%orb_true_iff; [rewrite (IH1 H) | rewrite (IH2 H)];
        [reflexivity | apply andb_false_r].
    - intros [H1 H2]%andb_true_iff. now rewrite (IH1 H1), (IH2 H2). }
  assert (Hderiv : forall c r, void r = true -> void (Regex.deriv c r) = true).
  { intros c.
    induction r as [| |cls|r1 IH1 r2 IH2|r1 IH1 r2 IH2|r1 IH1]; simpl;
      try discriminate; try reflexivity.
    - intros [H|H]%orb_true_iff.
      + rewrite (Hnull _ H). simpl. now rewrite (IH1 H).
      + destruct (Regex.nullable r1); simpl; rewrite ?(IH2 H), H;
          now rewrite ?orb_true_r.
    - intros [H1 H2]%andb_true_iff. now rewrite (IH1 H1), (IH2 H2). }
  induction input as [|c rest IH]; intros r Hvoid; simpl.
  - now apply Hnull.
  - now apply IH, Hderiv.
Qed.

Lemma deriv_outside c : forall r,
  alphabet r c = false -> void (Regex.deriv c r) = true.
Proof.
  induction r as [| |cls|r1 IH1 r2 IH2|r1 IH1 r2 IH2|r1 IH1]; simpl;
    try reflexivity.
  - now intros ->.
  - intros [H1 H2]%orb_false_iff.
    destruct (Regex.nullable r1); simpl; now rewrite (IH1 H1), ?(IH2 H2).
  - intros [H1 H2]%orb_false_iff. now rewrite (IH1 H1), (IH2 H2).
  - intros H. now rewrite (IH1 H).
Qed.

Lemma deriv_alphabet c c' : forall r,
  alphabet (Regex.deriv c r) c' = true -> alphabet r c' = true.
Proof.
  induction r as [| |cls|r1 IH1 r2 IH2|r1 IH1 r2 IH2|r1 IH1]; simpl;
    try discriminate.
  - now destruct (cls c).
  - destruct (Regex.nullable r1); simpl; rewrite !orb_true_iff;
      intuition auto.
  - rewrite !orb_true_iff. intuition auto.
  - rewrite orb_true_iff. intuition auto.
Qed.

Lemma fullMatch_alphabet input : forall r,
  Regex.fullMatch r input = true ->
  Forall (fun c => alphabet r c = true) input.
Proof.
  induction input as [|c rest IH]; intros r Hmatch; [constructor|].
  simpl in Hmatch. constructor.
  - destruct (alphabet r c) eqn:E; [reflexivity|].
    now rewrite (void_fullMatch rest _ (deriv_outside c r E)) in Hmatch.
  - apply IH in Hmatch. revert Hmatch. apply List.Forall_impl.
    intros c'. apply deriv_alphabet.
Qed.

End Alphabet.

Lemma runes_ascii (P : ascii -> bool) (text : list ascii) :
  Forall (fun r => match r with
                   | Text.Chr b => P b = true
                   | Text.NonAscii => False
                   end) (Text.runesFrom 0 text) ->
  Forall (fun b => P b = true) text.
Proof.
  induction text as [|b rest IH]; [constructor|]. cbn [Text.runesFrom].
  destruct (Text.isAscii b); intros [Hb Hrest]%List.Forall_cons_iff;
    [|destruct Hb].
  constructor; [exact Hb | now apply IH].
Qed.

(** X21.  The e-mail pattern accepts only strings made of ASCII letters,
    digits and the characters [. _ % + - @]: a space, a quote or any byte
    of a non-ASCII character makes [Email()] reject the string. *)
Theorem X21_email_alphabet (str : string) :
  Regex.MatchString Regex.emailRegex str = true ->
  Forall (fun b => emailByte b = true) (bytes str).
Proof.
  unfold Regex.MatchString, Text.runes. intros Hmatch.
  apply fullMatch_alphabet in Hmatch. apply runes_ascii.
  revert Hmatch. apply List.Forall_impl. intros [b|]; [|discriminate].
  cbn [alphabet Regex.emailRegex Regex.plus Regex.inClass Regex.chr].
  unfold emailByte, Regex.oneOf. cbn [existsb list_ascii_of_string].
  rewrite (Ascii.eqb_sym "@" b), (Ascii.eqb_sym "." b).
  destruct (Text.isLetter b), (Text.isDigit b), (Ascii.eqb b "."),
    (Ascii.eqb b "_"), (Ascii.eqb b "%"), (Ascii.eqb b "+"),
    (Ascii.eqb b "-"), (Ascii.eqb b "@"); simpl; congruence.
Qed.

(** ["ada@example.org"] matches the pattern. *)
Lemma X21_witness :
  Forall (fun b => emailByte b = true) (bytes "ada@example.org").
Proof.
  apply (X21_email_alphabet "ada@example.org"). vm_compute. reflexivity.
Defined.

(* ================================================================== *)
(** ** Flattening the result of a scalar schema *)
(* ================================================================== *)

Lemma Flatten_form_only (errors : list ValidationError) : forall r,
  Forall (fun err => Path err = []) errors ->
  fold_left flattenStep errors r =
  {| FormErrors := FormErrors r ++ map Message errors;
     FieldErrors := FieldErrors r |}.
Proof.
  induction errors as [|err errors IH]; intros r Herrors; simpl.
  - rewrite app_nil_r. now destruct r.
  - apply List.Forall_cons_iff in Herrors as [Herr Herrors].
    rewrite (IH _ Herrors), flattenStep_form by now rewrite Herr.
    simpl. now rewrite <- app_assoc.
Qed.

Lemma here_refinements b v p :
  Forall (fun err => Path err = p) (refinementFailures b v p).
Proof.
  unfold refinementFailures.
  induction (refinements b) as [|f rest IH]; simpl; [constructor|].
  apply Forall_app. split; [|exact IH].
  destruct (f v) as [[] message]; repeat constructor.
Qed.

Lemma refine_here b v p e e' :
  superRefinements b = [] ->
  grows (builtin p) noErrors e -> refine b v p e = Some e' ->
  Forall (fun err => Path err = p) (Errors e').
Proof.
  intros Hsuper (added & Hadded & Hbuiltin) H.
  rewrite (refine_grows b v p e (Errors e) eq_refl) in H.
  apply nilIfEmpty_Some in H as [-> _]. simpl.
  unfold superFailures. rewrite Hsuper, Hadded. simpl. rewrite app_nil_r.
  apply Forall_app. split; [|apply here_refinements].
  revert Hbuiltin. apply List.Forall_impl. now intros err [? _].
Qed.

Section Flattening.
Variable fmtFloat : float -> string.

(** X22.  When a scalar schema without context-aware refinements is
    called at the empty path, flattening the collection it returns puts
    every message, in order, in the form errors and leaves the field
    errors empty. *)
Theorem X22_scalar_failures_are_form_errors
    (s : Schema) (k : primKind) (v : value) (errors : ValidationErrors) :
  declaredKind s = Some k -> superRefinements (baseOf s) = [] ->
  Validate fmtFloat s v [] = Return (Some errors) ->
  Flatten errors =
  {| FormErrors := Message <$> Errors errors; FieldErrors := ∅ |}.
Proof.
  intros Hkind Hsuper Hresult.
  assert (Hhere : Forall (fun err => Path err = []) (Errors errors)).
  { assert (Hleaf : forall b code text,
              Return (Some (report b noErrors [] code text)) =
              Return (Some errors) ->
              Forall (fun err => Path err = []) (Errors errors)).
    { intros b code text [= <-]. now repeat constructor. }
    assert (HonNil : forall b,
              Return (onNil b []) = Return (Some errors) ->
              Forall (fun err => Path err = []) (Errors errors)).
    { intros b. unfold onNil. destruct (negb (nilable b)); [apply Hleaf|].
      discriminate. }
    destruct s as [s|s|s|s| | |]; try discriminate; simpl in Hsuper, Hresult.
    - destruct v; try (now apply (Hleaf _ _ _ Hresult));
        try (now apply (HonNil _ Hresult)).
      injection Hresult as Hresult.
      apply (refine_here (StringSchema.base s) _ [] _ _ Hsuper
               (string_constraints_grow _ _ _ _) Hresult).
    - unfold IntSchema.Validate in Hresult.
      destruct v; try (now apply (Hleaf _ _ _ Hresult));
        try (now apply (HonNil _ Hresult)).
      destruct (match k0 with Uint64 => Num.maxInt64 <? n | _ => false end);
        [now apply (Hleaf _ _ _ Hresult)|].
      cbv zeta in Hresult.
      destruct (IntSchema.multiple _ _ _ _) as [e|] eqn:E; [|discriminate].
      injection Hresult as Hresult.
      apply (refine_here (IntSchema.base s) (VInt k0 n) [] e _ Hsuper);
        [|exact Hresult].
      apply (grows_trans _ _ _ _ (int_bounds_grow _ _ _ _)
               (int_multiple_grow _ _ _ _ _ E)).
    - destruct v; try (now apply (Hleaf _ _ _ Hresult));
        try (now apply (HonNil _ Hresult)).
      injection Hresult as Hresult.
      apply (refine_here (FloatSchema.base s) _ [] _ _ Hsuper
               (float_constraints_grow _ _ _ _ _) Hresult).
    - destruct v; try (now apply (Hleaf _ _ _ Hresult));
        try (now apply (HonNil _ Hresult)).
      injection Hresult as Hresult.
      apply (refine_here (BoolSchema.base s) _ [] _ _ Hsuper
               (grows_refl _ _) Hresult). }
  unfold Flatten. now rewrite (Flatten_form_only _ _ Hhere).
Qed.

End Flattening.

(** [String().Min(5)] on ["hi"] at the empty path. *)
Lemma X22_witness :
  Flatten
    {| Errors :=
         [failure newBase [] ErrCodeTooSmall
            "String must be at least 5 character(s) long, got 2"] |} =
  {| FormErrors :=
       Message <$>
         Errors {| Errors :=
           [failure newBase [] ErrCodeTooSmall
              "String must be at least 5 character(s) long, got 2"] |};
     FieldErrors := ∅ |}.
Proof.
  apply (X22_scalar_failures_are_form_errors fmtFloatB
           (OfString (StringBuild.Min 5 StringSchema.String_)) KString
           (VString "hi")); reflexivity.
Defined.


(* ================================================================== *)
(** ** Maps and structs: what a run returns *)
(* ================================================================== *)

Lemma Errors_unknownKeys {A} b (shape : list (string * A)) p what keys : forall e,
  Errors (fold_left (unknownKey b shape p what) keys e) =
  Errors e ++ unknownKeyFailures b shape p what keys.
Proof.
  unfold unknownKeyFailures.
  induction keys as [|key keys IH]; intros e; simpl.
  - now rewrite app_nil_r.
  - rewrite IH. unfold unknownKey. destruct (hasKey shape key); [reflexivity|].
    rewrite Errors_report. unfold PathAppend, failure. now rewrite <- app_assoc.
Qed.

Lemma inOrder_In calls : forall l errs e,
  inOrder calls = Some l -> In (Return (Some errs)) calls ->
  In e (Errors errs) -> In e l.
Proof.
  induction calls as [|o calls IH]; intros l errs e Hl Hin He; [destruct Hin|].
  rewrite inOrder_cons in Hl.
  destruct (returned o) as [lo|] eqn:Ho; [|discriminate].
  destruct (inOrder calls) as [rest|]; [|discriminate].
  injection Hl as <-. apply in_or_app.
  destruct Hin as [-> | Hin].
  - left. simpl in Ho. now injection Ho as <-.
  - right. now apply (IH rest errs e).
Qed.

Lemma inOrder_from calls : forall l e,
  inOrder calls = Some l -> In e l ->
  exists errs, In (Return (Some errs)) calls /\ In e (Errors errs).
Proof.
  induction calls as [|o calls IH]; intros l e Hl He.
  - injection Hl as <-. destruct He.
  - rewrite inOrder_cons in Hl.
    destruct (returned o) as [lo|] eqn:Ho; [|discriminate].
    destruct (inOrder calls) as [rest|]; [|discriminate].
    injection Hl as <-. apply in_app_or in He as [He | He].
    + destruct o as [[errs|]|]; simpl in Ho; try discriminate.
      * injection Ho as <-. exists errs. split; [now left | exact He].
      * injection Ho as <-. destruct He.
    + destruct (IH rest e eq_refl He) as (errs & Hin & Herrs).
      exists errs. split; [now right | exact Herrs].
Qed.

Section Results.
Variable fmtFloat : float -> string.


Lemma struct_result b shape strict members p v :
  (exists ty z, v = VStruct ty z members) \/
  (exists ty ty' z, v = VPtr ty (Some (VStruct ty' z members))) ->
  Validate fmtFloat (OfStruct b shape strict) v p =
  match inOrder (fieldCalls fmtFloat shape
                   (structFieldValue (buildFieldMap members)) p) with
  | None => Panic
  | Some fromFields =>
      Return (nilIfEmpty {| Errors :=
        fromFields
        ++ (if strict
            then unknownKeyFailures b shape p "field"
                   (map getStructFieldName
                      (List.filter IsExported (map fst members)))
            else [])
        ++ refinementFailures b v p ++ superFailures b v p |})
  end.
Proof.
  intros Hv.
  assert (Hloop :
    orPanic
      (validateShape (Validate fmtFloat)
         (structFieldValue (buildFieldMap members)) p shape noErrors)
      (fun errors =>
         refine b v p
           (if strict
            then fold_left (unknownKey b shape p "field")
                   (map getStructFieldName
                      (List.filter IsExported (map fst members))) errors
            else errors)) =
    match inOrder (fieldCalls fmtFloat shape
                     (structFieldValue (buildFieldMap members)) p) with
    | None => Panic
    | Some fromFields =>
        Return (nilIfEmpty {| Errors :=
          fromFields
          ++ (if strict
              then unknownKeyFailures b shape p "field"
                     (map getStructFieldName
                        (List.filter IsExported (map fst members)))
              else [])
          ++ refinementFailures b v p ++ superFailures b v p |})
    end).
  { rewrite validateShape_inOrder. unfold fieldCalls.
    destruct (inOrder _) as [l|]; simpl; [|reflexivity].
    f_equal. erewrite refine_grows; [|reflexivity]. f_equal. f_equal.
    destruct strict.
    - rewrite Errors_unknownKeys. simpl. now rewrite <- !app_assoc.
    - reflexivity. }
  destruct Hv as [(ty & z & ->) | (ty & ty' & z & ->)]; exact Hloop.
Qed.

Lemma required_call s q :
  nilable (baseOf s) = false ->
  Validate fmtFloat s VNil q =
  Return (Some {| Errors :=
    [ {| Path := q;
         Message := getErrorMessage (baseOf s) q ErrCodeRequired "Required";
         Code := ErrCodeRequired; Meta := None |} ] |}).
Proof. intros Hnil. rewrite Validate_nil. now rewrite onNil_required. Qed.


End Results.


Section Reported.
Variable fmtFloat : float -> string.


(** X17.  An exported member that is not a pointer, whose [json] tag has
    [omitempty] and whose value is empty ([isEmptyValue]: zero, negative
    zero included, false, the empty string, an empty collection) is
    validated as a missing member is: the struct holds nil for its name.
    So when the shape declares the name with a schema that is not nilable,
    the result of the struct schema has the failure [required] for it:
    either a call on a field panics, and the validation panics, or the
    result is the collection of the fields' failures, with that failure in
    it, followed by what strict mode and the refinements add. *)
Theorem X17_empty_omitempty_member_is_validated_as_nil
    (b : BaseSchema) (shape : list (string * Schema)) (strict : bool)
    (ty : string) (z : bool) (before after : list (StructField * value))
    (field : StructField) (x : value) (fieldSchema : Schema) (p : path) :
  IsExported field = true -> IsPtr field = false ->
  Text.Contains (JsonTag field) "omitempty" = true ->
  isEmptyValue x = true ->
  Forall (fun m : StructField * value =>
            IsExported (fst m) = true ->
            getStructFieldName (fst m) <> getStructFieldName field) after ->
  In (getStructFieldName field, fieldSchema) shape ->
  nilable (baseOf fieldSchema) = false ->
  let name := getStructFieldName field in
  let members := before ++ (field, x) :: after in
  let v := VStruct ty z members in
  let entry :=
    {| Path := p ++ [PStr name];
       Message := getErrorMessage (baseOf fieldSchema) (p ++ [PStr name])
                    ErrCodeRequired "Required";
       Code := ErrCodeRequired; Meta := None |} in
  structFieldValue (buildFieldMap members) name = VNil
  /\ match inOrder (fieldCalls fmtFloat shape
                      (structFieldValue (buildFieldMap members)) p) with
     | None => Validate fmtFloat (OfStruct b shape strict) v p = Panic
     | Some fromFields =>
         In entry fromFields
         /\ Validate fmtFloat (OfStruct b shape strict) v p =
            Return (Some {| Errors :=
              fromFields
              ++ (if strict
                  then unknownKeyFailures b shape p "field"
                         (map getStructFieldName
                            (List.filter IsExported (map fst members)))
                  else [])
              ++ refinementFailures b v p ++ superFailures b v p |})
     end.
Proof.
  intros Hexported Hptr Htag Hempty Hafter Hin Hnil name members v entry.
  assert (Hvalue : structFieldValue (buildFieldMap members) name = VNil).
  { unfold structFieldValue, buildFieldMap, members. rewrite fold_left_app.
    cbn [fold_left fst]. rewrite Hexported.
    rewrite (buildFieldMap_keeps (getStructFieldName field) (field, x) after);
      [|apply lookup_insert_eq | exact Hafter].
    now rewrite Hptr, Htag, Hempty. }
  split; [exact Hvalue|].
  rewrite (struct_result fmtFloat b shape strict members p v)
    by (left; now exists ty, z).
  destruct (inOrder _) as [fromFields|] eqn:Hfields; [|reflexivity].
  assert (Hthere : In entry fromFields).
  { apply (inOrder_In _ _ {| Errors := [entry] |} entry Hfields);
      [|now left].
    unfold fieldCalls. apply in_map_iff. exists (name, fieldSchema).
    split; [|exact Hin]. cbn [fst snd]. rewrite Hvalue.
    now apply required_call. }
  split; [exact Hthere|].
  destruct fromFields as [|first others]; [destruct Hthere | reflexivity].
Qed.

End Reported.


(** [Nick string `json:"nick,omitempty"`] holding the empty string, in a
    struct validated against [{"nick": String().Min(3)}]: the result is the
    failure [required] at [nick]. *)
Lemma X17_witness :
  structFieldValue
    (buildFieldMap
       ([(member "Name" "" false, VString "Ada")] ++
        (member "Nick" "nick,omitempty" false, VString "") ::
        [(member "Extra" "extra" false, VString "x")]))
    (getStructFieldName (member "Nick" "nick,omitempty" false)) = VNil
  /\ In {| Path := [PStr "nick"]; Message := "Required";
           Code := ErrCodeRequired; Meta := None |}
        [ {| Path := [PStr "nick"]; Message := "Required";
             Code := ErrCodeRequired; Meta := None |} ]
  /\ Validate fmtFloatB
       (Struct [("nick", OfString (StringBuild.Min 3 StringSchema.String_))])
       (VStruct "gozod.Account" false
          ([(member "Name" "" false, VString "Ada")] ++
           (member "Nick" "nick,omitempty" false, VString "") ::
           [(member "Extra" "extra" false, VString "x")])) [] =
     Return (Some {| Errors :=
       [ {| Path := [PStr "nick"]; Message := "Required";
            Code := ErrCodeRequired; Meta := None |} ] |}).
Proof.
  refine (X17_empty_omitempty_member_is_validated_as_nil fmtFloatB newBase
            [("nick", OfString (StringBuild.Min 3 StringSchema.String_))] false
            "gozod.Account" false
            [(member "Name" "" false, VString "Ada")]
            [(member "Extra" "extra" false, VString "x")]
            (member "Nick" "nick,omitempty" false) (VString "")
            (OfString (StringBuild.Min 3 StringSchema.String_)) []
            eq_refl eq_refl eq_refl eq_refl _ (or_introl eq_refl) eq_refl).
  repeat constructor. intros _. vm_compute. discriminate.
Defined.

(* ================================================================== *)
(** ** Where a message comes from *)
(* ================================================================== *)

Lemma getErrorMessage_resolved b p code text :
  getErrorMessage b p code text = resolved b p code text.
Proof.
  unfold getErrorMessage, resolved. destruct (errorFormatter b); [reflexivity|].
  now destruct (customErrors b !! code).
Qed.


Lemma own_refinements s v p :
  Forall (ownFailure s v p) (refinementFailures (baseOf s) v p).
Proof.
  unfold refinementFailures.
  assert (Hall : forall l, incl l (refinements (baseOf s)) ->
            Forall (ownFailure s v p)
              (flat_map
                 (fun refine : RefineFunc =>
                    let '(valid, message) := refine v in
                    if valid then []
                    else [ failure (baseOf s) p ErrCodeCustomValidation
                             (if String.eqb message "" then "Custom validation failed"
                              else message) ]) l)).
  { induction l as [|f rest IH]; intros Hincl; simpl; [constructor|].
    apply Forall_app. split.
    - destruct (f v) as [[] message] eqn:E; [constructor|].
      apply List.Forall_cons; [|constructor].
      unfold failure. rewrite getErrorMessage_resolved.
      apply (FromRefinement s v p f message); [|exact E].
      apply Hincl. now left.
    - apply IH. intros g Hg. apply Hincl. now right. }
  apply Hall, incl_refl.
Qed.

Lemma own_super s v p :
  Forall (ownFailure s v p) (superFailures (baseOf s) v p).
Proof.
  unfold superFailures.
  assert (Hall : forall l, incl l (superRefinements (baseOf s)) ->
            Forall (ownFailure s v p)
              (flat_map (fun superRefine : SuperRefineFunc =>
                           map (issueFailure p) (superRefine v)) l)).
  { induction l as [|f rest IH]; intros Hincl; simpl; [constructor|].
    apply Forall_app. split.
    - apply List.Forall_forall. intros e He.
      apply in_map_iff in He as (i & <- & Hi).
      apply (FromIssue s v p f i); [|exact Hi]. apply Hincl. now left.
    - apply IH. intros g Hg. apply Hincl. now right. }
  apply Hall, incl_refl.
Qed.

Lemma own_refine s v p e :
  Forall (ownFailure s v p) (Errors e) ->
  match refine (baseOf s) v p e with
  | Some errors => Forall (ownFailure s v p) (Errors errors)
  | None => True
  end.
Proof.
  intros He. rewrite (refine_grows (baseOf s) v p e (Errors e) eq_refl).
  unfold nilIfEmpty. simpl.
  destruct (Errors e ++ _) eqn:E; [exact I|]. simpl. rewrite <- E.
  repeat (apply Forall_app; split);
    [exact He | apply own_refinements | apply own_super].
Qed.










Section Loops_all.
Context {schemaT : Type}.
Variable validate : schemaT -> value -> path -> outcome.
Variable Q : ValidationError -> Prop.



End Loops_all.

Section Origins.
Variable fmtFloat : float -> string.








End Origins.

